(** * Collaborative task board: ordering keys, optimistic concurrency,
      offline replay and acknowledgement handling.

    A shallow embedding of
    - [backend/src/utils/fractionalIndex.ts] (module [FractionalIndex]),
    - the task repository and the task service of the backend
      (modules [TaskRepository] and [TaskService]),
    - the client store and the socket hook of the frontend
      (modules [TaskStore] and [UseWebSocket]),
    followed by the properties established about them. *)

From Stdlib Require Import ZArith Lia Ascii String List Bool Sorted.
From stdpp Require Import base option list strings gmap fin_maps.

Open Scope Z_scope.

(** JavaScript strings that are inspected symbol by symbol (position keys)
    are lists of characters, as [split('')] gives them; all other strings
    (identifiers, titles, messages) are [string]. *)
Abbreviation Position := (list ascii).

(** [pos "Va"] is the position key written "Va". *)
Definition pos (s : string) : Position := list_ascii_of_string s.

(* ===================================================================== *)
(** ** backend/src/utils/fractionalIndex.ts                               *)
(* ===================================================================== *)

Module FractionalIndex.

Definition BASE_CHARS : list ascii :=
  pos "0123456789ABCDEFGHIJKLMNOPQRSTUVWXYZabcdefghijklmnopqrstuvwxyz".

Definition BASE : Z := Z.of_nat (length BASE_CHARS).

(** [BASE_CHARS[i]]; the index is always in range where it is used. *)
Definition charAt (l : list ascii) (i : nat) : ascii := nth i l "0"%char.

Definition MID_CHAR : ascii := charAt BASE_CHARS (Z.to_nat (BASE / 2)).

(** [Array.prototype.indexOf] from index [i] on: [-1] when absent. *)
Fixpoint indexOf (c : ascii) (l : list ascii) (i : Z) : Z :=
  match l with
  | [] => -1
  | x :: l' => if Ascii.eqb x c then i else indexOf c l' (i + 1)
  end.

Definition charToIndex (char : ascii) : Z :=
  let index := indexOf char BASE_CHARS 0 in
  if index =? -1 then 0 else index.

Definition indexToChar (index : Z) : ascii :=
  charAt BASE_CHARS (Z.to_nat (Z.max 0 (Z.min index (BASE - 1)))).

Definition generateInitialPosition : Position := pos "V".

(** The two right-to-left [while] loops of [decrementPosition] and
    [incrementPosition]: [k] is [i + 1]; the result is the final [i],
    [-1] when the loop ran off the left end. *)
Fixpoint scanDown (skip : ascii -> bool) (p : Position) (k : nat) : Z :=
  match k with
  | O => -1
  | S i => if skip (charAt p i) then scanDown skip p i else Z.of_nat i
  end.

Definition decrementPosition (p : Position) : Position :=
  let i := scanDown (fun c => charToIndex c =? 0) p (length p) in
  if i <? 0 then
    "0"%char :: [indexToChar (BASE / 4)]
  else
    let i := Z.to_nat i in
    let chars := <[i := indexToChar (charToIndex (charAt p i) - 1)]> p in
    let chars :=
      take (S i) chars ++ replicate (length chars - S i) (indexToChar (BASE - 1)) in
    chars ++ [MID_CHAR].

Definition incrementPosition (p : Position) : Position :=
  let i := scanDown (fun c => charToIndex c =? BASE - 1) p (length p) in
  if i <? 0 then
    p ++ [MID_CHAR]
  else
    let i := Z.to_nat i in
    let chars := <[i := indexToChar (charToIndex (charAt p i) + 1)]> p in
    take (S i) chars.

(** The [for] loop of [comparePositions], entered at index [i] with [n]
    iterations left.  [a !! i] is [None] exactly when [i >= a.length]. *)
Fixpoint compareFrom (a b : Position) (i n : nat) : Z :=
  match n with
  | O => 0
  | S n' =>
      let aIdx := match a !! i with Some c => charToIndex c | None => -1 end in
      let bIdx := match b !! i with Some c => charToIndex c | None => -1 end in
      if negb (aIdx =? bIdx) then aIdx - bIdx
      else compareFrom a b (S i) n'
  end.

Definition comparePositions (a b : Position) : Z :=
  let maxLen := Nat.max (length a) (length b) in
  compareFrom a b 0 maxLen.

Definition padEnd (s : Position) (n : nat) (c : ascii) : Position :=
  s ++ replicate (n - length s) c.

(** The [for] loop of [midpoint]. *)
Fixpoint midpointFrom (paddedBefore paddedAfter : Position)
    (i n : nat) (result : Position) : Position :=
  match n with
  | O => result ++ [MID_CHAR]
  | S n' =>
      let beforeIdx := charToIndex (charAt paddedBefore i) in
      let afterIdx := charToIndex (charAt paddedAfter i) in
      if beforeIdx =? afterIdx then
        midpointFrom paddedBefore paddedAfter (S i) n' (result ++ [charAt paddedBefore i])
      else
        let midIdx := (beforeIdx + afterIdx) / 2 in
        if midIdx >? beforeIdx then result ++ [indexToChar midIdx]
        else (result ++ [charAt paddedBefore i]) ++ [MID_CHAR]
  end.

(** What a call returns: a value, or the [Error] thrown by [midpoint]
    ("Invalid order: before should be less than after"). *)
Inductive Outcome (A : Type) : Type :=
| Returns (a : A)
| ThrowsInvalidOrder (before after : Position).
Arguments Returns {A} a.
Arguments ThrowsInvalidOrder {A} before after.

Definition midpoint (before after : Position) : Outcome Position :=
  if comparePositions before after >=? 0 then ThrowsInvalidOrder before after
  else
    let maxLen := Nat.max (length before) (length after) in
    let paddedBefore := padEnd before maxLen (charAt BASE_CHARS 0) in
    let paddedAfter := padEnd after maxLen (charAt BASE_CHARS 0) in
    Returns (midpointFrom paddedBefore paddedAfter 0 maxLen []).

(** [!s] for an optional string: [undefined] and the empty string are
    both falsy. *)
Definition falsy (s : option Position) : bool :=
  match s with
  | None => true
  | Some [] => true
  | Some (_ :: _) => false
  end.

Definition generatePositionBetween (before after : option Position)
    : Outcome Position :=
  if falsy before && falsy after then Returns generateInitialPosition
  else if falsy before then Returns (decrementPosition (default [] after))
  else if falsy after then Returns (incrementPosition (default [] before))
  else midpoint (default [] before) (default [] after).

Definition generatePositionBefore (position : Position) : Outcome Position :=
  generatePositionBetween None (Some position).

Definition generatePositionAfter (position : Position) : Outcome Position :=
  generatePositionBetween (Some position) None.

Definition includes (c : ascii) (l : list ascii) : bool :=
  existsb (Ascii.eqb c) l.

Definition isValidPosition (position : Position) : bool :=
  match position with
  | [] => false
  | _ => forallb (fun char => includes char BASE_CHARS) position
  end.

(** The [for] loop of [generatePositions], with [n] iterations left. *)
Fixpoint generatePositionsFrom (n : nat) (current after : option Position)
    (positions : list Position) : Outcome (list Position) :=
  match n with
  | O => Returns positions
  | S n' =>
      match generatePositionBetween current after with
      | ThrowsInvalidOrder b a => ThrowsInvalidOrder b a
      | Returns next =>
          generatePositionsFrom n' (Some next) after (positions ++ [next])
      end
  end.

(** [count] is an integer; a negative one runs the loop zero times. *)
Definition generatePositions (count : Z) (before after : option Position)
    : Outcome (list Position) :=
  if count =? 0 then Returns []
  else if count =? 1 then
    match generatePositionBetween before after with
    | ThrowsInvalidOrder b a => ThrowsInvalidOrder b a
    | Returns p => Returns [p]
    end
  else generatePositionsFrom (Z.to_nat count) before after [].

End FractionalIndex.

Import FractionalIndex.

(* ===================================================================== *)
(** ** Shared types (backend types/index.ts, frontend types)              *)
(* ===================================================================== *)

Inductive Column : Type := todo | in_progress | done.

Definition columnName (c : Column) : string :=
  match c with
  | todo => "todo"
  | in_progress => "in_progress"
  | done => "done"
  end.

Definition Column_eqb (a b : Column) : bool :=
  match a, b with
  | todo, todo | in_progress, in_progress | done, done => true
  | _, _ => false
  end.

(** Versions are JavaScript numbers holding integers, and [INTEGER] values
    in the store; instants ([Date], ISO strings) are kept as
    milliseconds. *)
Record Task : Type := mkTask {
  task_id : string;
  task_title : string;
  task_description : string;
  task_column : Column;
  task_position : Position;
  task_version : Z;
  task_createdAt : Z;
  task_updatedAt : Z
}.

Record CreateTaskInput : Type := mkCreateTaskInput {
  create_title : string;
  create_description : string;
  create_column : Column
}.

Record UpdateTaskInput : Type := mkUpdateTaskInput {
  update_id : string;
  update_title : option string;
  update_description : option string;
  update_version : Z
}.

Record MoveTaskInput : Type := mkMoveTaskInput {
  move_id : string;
  move_column : Column;
  move_position : Position;
  move_version : Z
}.

Record DeleteTaskInput : Type := mkDeleteTaskInput {
  delete_id : string;
  delete_version : Z
}.

(* ===================================================================== *)
(** ** Backend: db/taskRepository.ts                                      *)
(* ===================================================================== *)

Module TaskRepository.

Record TaskRow : Type := mkTaskRow {
  row_id : string;
  row_title : string;
  row_description : string;
  row_column : Column;
  row_position : Position;
  row_version : Z;
  row_created_at : Z;
  row_updated_at : Z
}.

(** The [tasks] table: [id] is its primary key. *)
Abbreviation Table := (gmap string TaskRow).

Definition rowToTask (row : TaskRow) : Task :=
  {| task_id := row_id row;
     task_title := row_title row;
     task_description := row_description row;
     task_column := row_column row;
     task_position := row_position row;
     task_version := row_version row;
     task_createdAt := row_created_at row;
     task_updatedAt := row_updated_at row |}.

(** Why a statement was refused or a transaction rolled back. *)
Inductive TxError : Type :=
| InvalidOrderError (before after : Position)
| UniqueViolation (id : string)
| SyntaxError
| IntegerOutOfRange.

(** The outcome of [transaction(...)]: the table after commit together
    with the callback's value, or a rollback that leaves the table as it
    was and rethrows. *)
Inductive Tx (A : Type) : Type :=
| Commit (table : Table) (a : A)
| Rollback (e : TxError).
Arguments Commit {A} table a.
Arguments Rollback {A} e.

(** *** The store

    The store is PostgreSQL (README.md); the column types are those that
    [runMigrations] declares.  The table [tasks] with the columns of
    [TaskRow] is taken as given; two rules of the store decide what the
    statements of this file do with it.

    - A statement is parsed before it is run, and [column] is a reserved
      word of the store's grammar: as the name of a column it is accepted
      only between double quotes.  Every statement below that contains the
      word uses it as a name, so the store refuses it with a syntax error,
      whatever the table holds.
    - [version] is an [INTEGER] column: a statement that would store a
      value above 2147483647 is refused.

    [title] reaches the store within the 500 characters of its column (the
    schemas bound it before the repository is called), and [position], of
    at most 50 characters, is written only by statements that the first
    rule refuses. *)
Definition INTEGER_MAX : Z := 2147483647.

Definition isWordChar (c : ascii) : bool :=
  let n := N_of_ascii c in
  ((48 <=? n) && (n <=? 57) || (65 <=? n) && (n <=? 90)
   || (97 <=? n) && (n <=? 122) || (n =? 95) || (n =? 36))%N.

Definition toLower (c : ascii) : ascii :=
  let n := N_of_ascii c in
  if ((65 <=? n) && (n <=? 90))%N then ascii_of_N (n + 32) else c.

Definition isQuote (c : ascii) : bool :=
  Ascii.eqb c "'" || Ascii.eqb c (ascii_of_nat 34).

(** The words of a statement that stand outside quotes, in lower case
    (key words and unquoted names are not case sensitive); [quote] is the
    quote that is open, [word] the word read so far. *)
Fixpoint sqlWordsFrom (sql : string) (quote : option ascii) (word : string)
    : list string :=
  match sql with
  | EmptyString => [word]
  | String c rest =>
      match quote with
      | Some q =>
          sqlWordsFrom rest (if Ascii.eqb c q then None else quote) EmptyString
      | None =>
          if isQuote c then word :: sqlWordsFrom rest (Some c) EmptyString
          else if isWordChar c then
            sqlWordsFrom rest None (word +:+ String (toLower c) EmptyString)
          else word :: sqlWordsFrom rest None EmptyString
      end
  end.

Definition sqlWords (sql : string) : list string :=
  sqlWordsFrom sql None EmptyString.

Definition storeParses (sql : string) : bool :=
  negb (existsb (String.eqb "column") (sqlWords sql)).

(** [query(sql, ...)] and [client.query(sql, ...)]: [result] is what the
    statement gives when the store runs it. *)
Definition query {A} (sql : string) (result : A) : TxError + A :=
  if storeParses sql then inr result else inl SyntaxError.

(** The texts of the statements that name the column; a line break of the
    source is written as a space. *)
Definition sqlLastPosition : string :=
  "SELECT position FROM tasks WHERE column = $1 ORDER BY position DESC LIMIT 1".
Definition sqlInsertTask : string :=
  "INSERT INTO tasks (id, title, description, column, position, version) VALUES ($1, $2, $3, $4, $5, 1) RETURNING *".
Definition sqlMoveTask : string :=
  "UPDATE tasks SET column = $1, position = $2, version = version + 1 WHERE id = $3 RETURNING *".
Definition sqlColumnPositions : string :=
  "SELECT position FROM tasks WHERE column = $1 ORDER BY position".

(** [ORDER BY position]: the store compares keys symbol by symbol on
    their character codes, a proper prefix first. *)
Fixpoint sqlCompare (a b : Position) : comparison :=
  match a, b with
  | [], [] => Eq
  | [], _ :: _ => Lt
  | _ :: _, [] => Gt
  | x :: a', y :: b' =>
      match N.compare (N_of_ascii x) (N_of_ascii y) with
      | Eq => sqlCompare a' b'
      | c => c
      end
  end.

Definition sqlGreatest (l : list Position) : option Position :=
  foldr (fun p acc =>
           match acc with
           | None => Some p
           | Some q => match sqlCompare q p with Lt => Some p | _ => Some q end
           end) None l.

(** The rows whose [column] is [c], in no particular order. *)
Definition rowsOfColumn (table : Table) (c : Column) : list TaskRow :=
  filter (fun r => Column_eqb (row_column r) c = true) (snd <$> map_to_list table).

(** The first statement of [createTask]: [rows[0]] of the greatest key of
    the column, if the store runs it. *)
Definition lastPositionOfColumn (table : Table) (c : Column)
    : TxError + option Position :=
  query sqlLastPosition (sqlGreatest (row_position <$> rowsOfColumn table c)).

(** [newId] is the value of [uuidv4()], [now] that of [NOW()].  A refused
    statement throws inside the transaction, which rolls back. *)
Definition createTask (newId : string) (now : Z)
    (table : Table) (input : CreateTaskInput) : Tx Task :=
  match lastPositionOfColumn table (create_column input) with
  | inl e => Rollback e
  | inr lastTask =>
      let position :=
        match lastTask with
        | Some p => generatePositionAfter p
        | None => generatePositionBetween None None
        end in
      match position with
      | ThrowsInvalidOrder b a => Rollback (InvalidOrderError b a)
      | Returns position =>
          match query sqlInsertTask (table !! newId) with
          | inl e => Rollback e
          | inr (Some _) => Rollback (UniqueViolation newId)
          | inr None =>
              let row :=
                {| row_id := newId;
                   row_title := create_title input;
                   row_description := create_description input;
                   row_column := create_column input;
                   row_position := position;
                   row_version := 1;
                   row_created_at := now;
                   row_updated_at := now |} in
              Commit (<[newId := row]> table) (rowToTask row)
          end
      end
  end.

Record UpdateResult : Type := mkUpdateResult {
  ur_task : option Task;
  ur_conflict : bool;
  ur_currentVersion : option Z
}.

(** [UPDATE tasks SET <updates> WHERE id = $n RETURNING *], with the
    [updated_at] trigger; [version = version + 1] is refused when the sum
    does not fit the column, and the transaction rolls back. *)
Definition updateTask (now : Z) (table : Table) (input : UpdateTaskInput)
    : Tx UpdateResult :=
  match table !! update_id input with
  | None => Commit table (mkUpdateResult None false None)
  | Some currentTask =>
      if negb (row_version currentTask =? update_version input) then
        Commit table
          (mkUpdateResult (Some (rowToTask currentTask)) true
             (Some (row_version currentTask)))
      else if INTEGER_MAX <? row_version currentTask + 1 then
        Rollback IntegerOutOfRange
      else
        let row :=
          {| row_id := row_id currentTask;
             row_title := default (row_title currentTask) (update_title input);
             row_description :=
               default (row_description currentTask) (update_description input);
             row_column := row_column currentTask;
             row_position := row_position currentTask;
             row_version := row_version currentTask + 1;
             row_created_at := row_created_at currentTask;
             row_updated_at := now |} in
        Commit (<[update_id input := row]> table)
          (mkUpdateResult (Some (rowToTask row)) false None)
  end.

Inductive MoveConflictType : Type := mc_version_mismatch | mc_concurrent_move.

Record MoveResult : Type := mkMoveResult {
  mr_task : option Task;
  mr_conflict : bool;
  mr_currentVersion : option Z;
  mr_conflictType : option MoveConflictType
}.

Definition moveTask (now : Z) (table : Table) (input : MoveTaskInput)
    : Tx MoveResult :=
  match table !! move_id input with
  | None => Commit table (mkMoveResult None false None None)
  | Some currentTask =>
      if negb (row_version currentTask =? move_version input) then
        Commit table
          (mkMoveResult (Some (rowToTask currentTask)) true
             (Some (row_version currentTask)) (Some mc_version_mismatch))
      else
        match query sqlMoveTask tt with
        | inl e => Rollback e
        | inr _ =>
            if INTEGER_MAX <? row_version currentTask + 1 then
              Rollback IntegerOutOfRange
            else
              let row :=
                {| row_id := row_id currentTask;
                   row_title := row_title currentTask;
                   row_description := row_description currentTask;
                   row_column := move_column input;
                   row_position := move_position input;
                   row_version := row_version currentTask + 1;
                   row_created_at := row_created_at currentTask;
                   row_updated_at := now |} in
              Commit (<[move_id input := row]> table)
                (mkMoveResult (Some (rowToTask row)) false None None)
        end
  end.

Record DeleteResult : Type := mkDeleteResult {
  dr_deleted : bool;
  dr_conflict : bool
}.

Definition deleteTask (table : Table) (id : string) (version : Z)
    : Tx DeleteResult :=
  match table !! id with
  | None => Commit table (mkDeleteResult false false)
  | Some current =>
      if negb (row_version current =? version) then
        Commit table (mkDeleteResult false true)
      else
        Commit (delete id table) (mkDeleteResult true false)
  end.

(** [SELECT * FROM tasks WHERE id = $1]: [rows[0]] converted, or [null]. *)
Definition getTaskById (table : Table) (id : string) : option Task :=
  rowToTask <$> table !! id.

(** [ORDER BY position], ascending: insertion into an ordered list, ties
    (equal keys) next to each other. *)
Fixpoint sqlInsert (p : Position) (l : list Position) : list Position :=
  match l with
  | [] => [p]
  | q :: l' =>
      match sqlCompare p q with
      | Gt => q :: sqlInsert p l'
      | _ => p :: l
      end
  end.

Definition sqlSort (l : list Position) : list Position :=
  foldr sqlInsert [] l.

(** The statement of [getReorderPositions], mapped to the keys, if the
    store runs it. *)
Definition positionsOfColumn (table : Table) (c : Column)
    : TxError + list Position :=
  query sqlColumnPositions (sqlSort (row_position <$> rowsOfColumn table c)).

(** [getReorderPositions]: the pair [(before, after)] of the returned
    object, an absent field being [None]; the call rejects when the store
    refuses the statement.  [targetIndex] is an integer. *)
Definition getReorderPositions (table : Table) (column : Column) (targetIndex : Z)
    : TxError + (option Position * option Position) :=
  match positionsOfColumn table column with
  | inl e => inl e
  | inr positions =>
      inr (if Z.of_nat (length positions) =? 0 then (None, None)
           else if targetIndex <=? 0 then (None, positions !! 0%nat)
           else if targetIndex >=? Z.of_nat (length positions) then
             (positions !! (length positions - 1)%nat, None)
           else
             (positions !! Z.to_nat (targetIndex - 1),
              positions !! Z.to_nat targetIndex))
  end.

End TaskRepository.

(* ===================================================================== *)
(** ** Backend: services/taskService.ts                                   *)
(* ===================================================================== *)

Module TaskService.

Import TaskRepository.

Inductive ConflictType : Type :=
| version_mismatch
| concurrent_move
| concurrent_edit.

Record Conflict : Type := mkConflict {
  conflict_type : ConflictType;
  conflict_currentVersion : option Z;
  conflict_currentTask : option Task;
  conflict_message : string
}.

(** The [error] strings of a [ServiceResult]; the text of a validation
    error is produced by the schema library. *)
Inductive ServiceError : Type :=
| ValidationError
| TaskNotFound
| FailedTo (what : string).

Record ServiceResult (T : Type) : Type := mkServiceResult {
  success : bool;
  data : option T;
  error : option ServiceError;
  conflict : option Conflict
}.
Arguments mkServiceResult {T} _ _ _ _.
Arguments success {T} _.
Arguments data {T} _.
Arguments error {T} _.
Arguments conflict {T} _.

Definition succeeded {T} (d : T) : ServiceResult T :=
  mkServiceResult true (Some d) None None.
Definition failed {T} (e : ServiceError) : ServiceResult T :=
  mkServiceResult false None (Some e) None.
Definition conflicted {T} (c : Conflict) : ServiceResult T :=
  mkServiceResult false None None (Some c).

Definition dquote : string := String (ascii_of_nat 34) EmptyString.

Definition msgUpdateConflict : string :=
  "Task was modified by another user. Your changes could not be applied.".
Definition msgDeleteConflict : string :=
  "Task was modified by another user and cannot be deleted.".
Definition msgMoveConflict (c : Column) : string :=
  "Task was moved by another user to " +:+ dquote +:+ columnName c +:+ dquote
    +:+ ". Your move was not applied.".

(** Request bodies before validation: records of the expected shape
    whose optional fields may be absent. *)
Record RawCreateTask : Type := mkRawCreateTask {
  raw_title : string;
  raw_description : option string;
  raw_column : option Column
}.

Section Schemas.

(** [z.string().uuid()], the identifier format of the schema library. *)
Variable isUuid : string -> bool.

Definition lengthBetween (lo hi : Z) (s : string) : bool :=
  let n := Z.of_nat (String.length s) in (lo <=? n) && (n <=? hi).

Definition optionAll {A} (p : A -> bool) (o : option A) : bool :=
  match o with Some a => p a | None => true end.

(** [CreateTaskSchema.safeParse]: the parsed value has the defaults
    filled in. *)
Definition parseCreateTask (input : RawCreateTask) : option CreateTaskInput :=
  if lengthBetween 1 500 (raw_title input)
     && optionAll (lengthBetween 0 5000) (raw_description input)
  then Some {| create_title := raw_title input;
               create_description := default EmptyString (raw_description input);
               create_column := default todo (raw_column input) |}
  else None.

(** [UpdateTaskSchema.safeParse]. *)
Definition parseUpdateTask (input : UpdateTaskInput) : option UpdateTaskInput :=
  if isUuid (update_id input)
     && optionAll (lengthBetween 1 500) (update_title input)
     && optionAll (lengthBetween 0 5000) (update_description input)
     && (0 <? update_version input)
  then Some input else None.

(** [MoveTaskSchema.safeParse]. *)
Definition parseMoveTask (input : MoveTaskInput) : option MoveTaskInput :=
  if isUuid (move_id input) && (0 <? move_version input)
  then Some input else None.

(** [DeleteTaskSchema.safeParse]. *)
Definition parseDeleteTask (input : DeleteTaskInput) : option DeleteTaskInput :=
  if isUuid (delete_id input) && (0 <? delete_version input)
  then Some input else None.

(** Each service function returns the table it leaves behind and its
    [ServiceResult]; a rolled-back transaction is caught and leaves the
    table as it was. *)
Definition createTask (newId : string) (now : Z)
    (table : Table) (input : RawCreateTask) : Table * ServiceResult Task :=
  match parseCreateTask input with
  | None => (table, failed ValidationError)
  | Some validated =>
      match TaskRepository.createTask newId now table validated with
      | Commit table' task => (table', succeeded task)
      | Rollback _ => (table, failed (FailedTo "Failed to create task"))
      end
  end.

Definition updateTask (now : Z)
    (table : Table) (input : UpdateTaskInput) : Table * ServiceResult Task :=
  match parseUpdateTask input with
  | None => (table, failed ValidationError)
  | Some validated =>
      match TaskRepository.updateTask now table validated with
      | Rollback _ => (table, failed (FailedTo "Failed to update task"))
      | Commit table' result =>
          match ur_task result with
          | None => (table', failed TaskNotFound)
          | Some task =>
              if ur_conflict result then
                (table', conflicted
                   {| conflict_type := version_mismatch;
                      conflict_currentVersion := ur_currentVersion result;
                      conflict_currentTask := Some task;
                      conflict_message := msgUpdateConflict |})
              else (table', succeeded task)
          end
      end
  end.

Definition moveTask (now : Z)
    (table : Table) (input : MoveTaskInput) : Table * ServiceResult Task :=
  match parseMoveTask input with
  | None => (table, failed ValidationError)
  | Some validated =>
      match TaskRepository.moveTask now table validated with
      | Rollback _ => (table, failed (FailedTo "Failed to move task"))
      | Commit table' result =>
          match mr_task result with
          | None => (table', failed TaskNotFound)
          | Some task =>
              if mr_conflict result then
                (table', conflicted
                   {| conflict_type := concurrent_move;
                      conflict_currentVersion := mr_currentVersion result;
                      conflict_currentTask := Some task;
                      conflict_message := msgMoveConflict (task_column task) |})
              else (table', succeeded task)
          end
      end
  end.

Definition deleteTask
    (table : Table) (input : DeleteTaskInput) : Table * ServiceResult string :=
  match parseDeleteTask input with
  | None => (table, failed ValidationError)
  | Some validated =>
      match TaskRepository.deleteTask table
              (delete_id validated) (delete_version validated) with
      | Rollback _ => (table, failed (FailedTo "Failed to delete task"))
      | Commit table' result =>
          if negb (dr_deleted result) && negb (dr_conflict result) then
            (table', failed TaskNotFound)
          else if dr_conflict result then
            (table', conflicted
               {| conflict_type := version_mismatch;
                  conflict_currentVersion := None;
                  conflict_currentTask := None;
                  conflict_message := msgDeleteConflict |})
          else (table', succeeded (delete_id validated))
      end
  end.


End Schemas.

(** What an [async] function of the service or of the handler rejects
    with when nothing catches it. *)
Inductive Rejection : Type :=
| StoreRejects (e : TxError)
| InvalidOrder (before after : Position).

(** [calculateMovePosition]: the key for a task dropped at [targetIndex] of
    a column, from the neighbours the store reports; nothing here catches
    what [getReorderPositions] or [generatePositionBetween] throws. *)
Definition calculateMovePosition (table : Table) (column : Column)
    (targetIndex : Z) : Rejection + Position :=
  match getReorderPositions table column targetIndex with
  | inl e => inl (StoreRejects e)
  | inr (before, after) =>
      match generatePositionBetween before after with
      | ThrowsInvalidOrder b a => inl (InvalidOrder b a)
      | Returns position => inr position
      end
  end.

End TaskService.

(* ===================================================================== *)
(** ** Backend: the task handlers of the WebSocket handler                *)
(* ===================================================================== *)

Module WebSocketHandler.

Import TaskRepository TaskService.

(** The payloads the server puts on the wire for task commands. *)
Inductive ServerPayload : Type :=
| AckTask (messageId : string) (task : Task)
| AckDeleted (messageId taskId : string)
| TaskDelta (task : Task)
| DeletedDelta (id : string)
| ConflictNotice (messageId : string) (conflict : Conflict)
    (operation : option string)
| ErrorNotice (error : ServiceError) (originalMessageId : option string).

Record ServerFrame : Type := mkServerFrame {
  frame_type : string;
  frame_payload : ServerPayload;
  frame_clientId : string;
  frame_timestamp : Z;
  frame_messageId : string
}.

(** [Date.now()] and [uuidv4()] as evaluated for one frame. *)
Record Stamp : Type := mkStamp {
  stamp_now : Z;
  stamp_id : string
}.

(** The [clients] map in insertion order; the flag is
    [readyState === WebSocket.OPEN]. *)
Abbreviation Clients := (list (string * bool)).

(** What a handler sends: recipient and frame, in sending order. *)
Abbreviation Outbox := (list (string * ServerFrame)).

(** A command as received: the envelope's [messageId] and its payload. *)
Record Command (P : Type) : Type := mkCommand {
  command_messageId : string;
  command_payload : P
}.
Arguments mkCommand {P} _ _.
Arguments command_messageId {P} _.
Arguments command_payload {P} _.

Record MoveCommand : Type := mkMoveCommand {
  mc_id : string;
  mc_column : Column;
  mc_targetIndex : Z;
  mc_version : Z
}.

(** [this.clients.get(clientId)] is present and open. *)
Definition isOpenClient (clients : Clients) (clientId : string) : bool :=
  match List.find (fun c => String.eqb (fst c) clientId) clients with
  | Some (_, true) => true
  | _ => false
  end.

Definition sendToClient (clients : Clients) (clientId : string)
    (message : ServerFrame) : Outbox :=
  if isOpenClient clients clientId then [(clientId, message)] else [].

Definition broadcast (clients : Clients) (message : ServerFrame) : Outbox :=
  (fun c => (fst c, message)) <$> List.filter (fun c => snd c) clients.

Definition broadcastExcept (clients : Clients) (excludeClientId : string)
    (message : ServerFrame) : Outbox :=
  (fun c => (fst c, message)) <$>
    List.filter (fun c => negb (String.eqb (fst c) excludeClientId) && snd c) clients.

Definition serverFrame (type : string) (payload : ServerPayload)
    (clientId : string) (stamp : Stamp) : ServerFrame :=
  {| frame_type := type;
     frame_payload := payload;
     frame_clientId := clientId;
     frame_timestamp := stamp_now stamp;
     frame_messageId := stamp_id stamp |}.

Definition sendError (clients : Clients) (clientId : string)
    (error : ServiceError) (originalMessageId : option string) (stamp : Stamp)
    : Outbox :=
  sendToClient clients clientId
    (serverFrame "error" (ErrorNotice error originalMessageId) "server" stamp).

Section Handlers.

Variable isUuid : string -> bool.

(** In each handler [first] stamps the frame built first and [second] the
    one built after it; [nowDb] is the store's clock. *)
Definition handleTaskCreate (newId : string) (nowDb : Z) (first second : Stamp)
    (clients : Clients) (table : Table) (clientId : string)
    (message : Command RawCreateTask) : Table * Outbox :=
  let '(table', result) := createTask newId nowDb table (command_payload message) in
  match success result, data result with
  | true, Some task =>
      (table',
       sendToClient clients clientId
         (serverFrame "sync:ack" (AckTask (command_messageId message) task)
            "server" first)
       ++ broadcastExcept clients clientId
            (serverFrame "task:create" (TaskDelta task) clientId second))
  | _, _ =>
      (table',
       sendError clients clientId
         (default (FailedTo "Failed to create task") (error result))
         (Some (command_messageId message)) first)
  end.

Definition handleTaskUpdate (nowDb : Z) (first second : Stamp)
    (clients : Clients) (table : Table) (clientId : string)
    (message : Command UpdateTaskInput) : Table * Outbox :=
  let '(table', result) := updateTask isUuid nowDb table (command_payload message) in
  match success result, data result with
  | true, Some task =>
      (table',
       sendToClient clients clientId
         (serverFrame "sync:ack" (AckTask (command_messageId message) task)
            "server" first)
       ++ broadcastExcept clients clientId
            (serverFrame "task:update" (TaskDelta task) clientId second))
  | _, _ =>
      match conflict result with
      | Some c =>
          (table',
           sendToClient clients clientId
             (serverFrame "conflict:notification"
                (ConflictNotice (command_messageId message) c None)
                "server" first))
      | None =>
          (table',
           sendError clients clientId
             (default (FailedTo "Failed to update task") (error result))
             (Some (command_messageId message)) first)
      end
  end.

(** [handleTaskMove] has no handler around [calculateMovePosition]: when
    that throws, the call is rejected before anything is written or sent. *)
Definition handleTaskMove (nowDb : Z) (first second : Stamp)
    (clients : Clients) (table : Table) (clientId : string)
    (message : Command MoveCommand) : Rejection + (Table * Outbox) :=
  let payload := command_payload message in
  match calculateMovePosition table (mc_column payload) (mc_targetIndex payload) with
  | inl rejection => inl rejection
  | inr position =>
      let moveInput :=
        {| move_id := mc_id payload;
           move_column := mc_column payload;
           move_position := position;
           move_version := mc_version payload |} in
      let '(table', result) := moveTask isUuid nowDb table moveInput in
      inr
        match success result, data result with
        | true, Some task =>
            (table',
             sendToClient clients clientId
               (serverFrame "sync:ack" (AckTask (command_messageId message) task)
                  "server" first)
             ++ broadcastExcept clients clientId
                  (serverFrame "task:move" (TaskDelta task) clientId second))
        | _, _ =>
            match conflict result with
            | Some c =>
                (table',
                 sendToClient clients clientId
                   (serverFrame "conflict:notification"
                      (ConflictNotice (command_messageId message) c
                         (Some "move"%string))
                      "server" first)
                 ++ match conflict_currentTask c with
                    | Some current =>
                        sendToClient clients clientId
                          (serverFrame "task:move" (TaskDelta current)
                             "server" second)
                    | None => []
                    end)
            | None =>
                (table',
                 sendError clients clientId
                   (default (FailedTo "Failed to move task") (error result))
                   (Some (command_messageId message)) first)
            end
        end
  end.

Definition handleTaskDelete (first second : Stamp)
    (clients : Clients) (table : Table) (clientId : string)
    (message : Command DeleteTaskInput) : Table * Outbox :=
  let '(table', result) := deleteTask isUuid table (command_payload message) in
  match success result, data result with
  | true, Some id =>
      (table',
       sendToClient clients clientId
         (serverFrame "sync:ack" (AckDeleted (command_messageId message) id)
            "server" first)
       ++ broadcastExcept clients clientId
            (serverFrame "task:delete" (DeletedDelta id) clientId second))
  | _, _ =>
      match conflict result with
      | Some c =>
          (table',
           sendToClient clients clientId
             (serverFrame "conflict:notification"
                (ConflictNotice (command_messageId message) c None)
                "server" first))
      | None =>
          (table',
           sendError clients clientId
             (default (FailedTo "Failed to delete task") (error result))
             (Some (command_messageId message)) first)
      end
  end.

End Handlers.

End WebSocketHandler.

(* ===================================================================== *)
(** ** Frontend: types, store/taskStore.ts                                *)
(* ===================================================================== *)

Inductive ConnectionStatus : Type := connected | disconnected | reconnecting.

(** The payloads a client puts on the wire. *)
Inductive ClientPayload : Type :=
| CreatePayload (title description : string) (column : Column)
| UpdatePayload (id title description : string) (version : Z)
| MovePayload (id : string) (column : Column) (targetIndex : Z) (version : Z)
| DeletePayload (id : string) (version : Z)
| EditingPayload (taskId : option string).

Record WSMessage : Type := mkWSMessage {
  msg_type : string;
  msg_payload : ClientPayload;
  msg_clientId : string;
  msg_timestamp : Z;
  msg_messageId : string
}.

Record QueuedOperation : Type := mkQueuedOperation {
  qo_id : string;
  qo_type : string;
  qo_payload : WSMessage;
  qo_timestamp : Z;
  qo_retryCount : Z
}.

Record PendingOperation : Type := mkPendingOperation {
  po_type : string;
  po_originalTask : option Task
}.

Module TaskStore.

(** The part of the store's state that the task, queue and
    pending-operation actions read and write. *)
Record TaskState : Type := mkTaskState {
  tasks : list Task;
  currentUserId : option string;
  connectionStatus : ConnectionStatus;
  offlineQueue : list QueuedOperation;
  pendingOperations : gmap string PendingOperation
}.

Definition initialState : TaskState :=
  {| tasks := [];
     currentUserId := None;
     connectionStatus := disconnected;
     offlineQueue := [];
     pendingOperations := ∅ |}.

Definition set_tasks (ts : list Task) (s : TaskState) : TaskState :=
  {| tasks := ts;
     currentUserId := currentUserId s;
     connectionStatus := connectionStatus s;
     offlineQueue := offlineQueue s;
     pendingOperations := pendingOperations s |}.

Definition set_offlineQueue (q : list QueuedOperation) (s : TaskState) : TaskState :=
  {| tasks := tasks s;
     currentUserId := currentUserId s;
     connectionStatus := connectionStatus s;
     offlineQueue := q;
     pendingOperations := pendingOperations s |}.

Definition set_pendingOperations (p : gmap string PendingOperation)
    (s : TaskState) : TaskState :=
  {| tasks := tasks s;
     currentUserId := currentUserId s;
     connectionStatus := connectionStatus s;
     offlineQueue := offlineQueue s;
     pendingOperations := p |}.

Definition setConnectionStatus (status : ConnectionStatus) (s : TaskState)
    : TaskState :=
  {| tasks := tasks s;
     currentUserId := currentUserId s;
     connectionStatus := status;
     offlineQueue := offlineQueue s;
     pendingOperations := pendingOperations s |}.

(** [Array.prototype.sort] is stable: an element goes after those that
    compare below it and before the first one that does not.  For a
    consistent comparator this is the result of every stable sort. *)
Fixpoint insertSorted {A} (cmp : A -> A -> Z) (x : A) (l : list A) : list A :=
  match l with
  | [] => [x]
  | y :: l' => if cmp x y >? 0 then y :: insertSorted cmp x l' else x :: l
  end.

Definition jsSort {A} (cmp : A -> A -> Z) (l : list A) : list A :=
  foldr (insertSorted cmp) [] l.

Definition columnOrder (c : Column) : Z :=
  match c with todo => 0 | in_progress => 1 | done => 2 end.

Section Store.

(** [String.prototype.localeCompare], which depends on the host's
    locale. *)
Variable localeCompare : Position -> Position -> Z.

Definition compareTasks (a b : Task) : Z :=
  if negb (Column_eqb (task_column a) (task_column b)) then
    columnOrder (task_column a) - columnOrder (task_column b)
  else localeCompare (task_position a) (task_position b).

Definition sortTasksByPosition (ts : list Task) : list Task :=
  jsSort compareTasks ts.

Definition setTasks (ts : list Task) (s : TaskState) : TaskState :=
  set_tasks (sortTasksByPosition ts) s.

Definition addTask (task : Task) (s : TaskState) : TaskState :=
  set_tasks (sortTasksByPosition (tasks s ++ [task])) s.

Definition updateTask (updatedTask : Task) (s : TaskState) : TaskState :=
  set_tasks
    (sortTasksByPosition
       ((fun task =>
           if String.eqb (task_id task) (task_id updatedTask)
           then updatedTask else task) <$> tasks s)) s.

Definition removeTask (taskId : string) (s : TaskState) : TaskState :=
  set_tasks
    (filter (fun task => String.eqb (task_id task) taskId = false) (tasks s)) s.

Definition getTaskById (taskId : string) (s : TaskState) : option Task :=
  find (fun task => String.eqb (task_id task) taskId) (tasks s).

(** [id] is the value of [uuidv4()], [now] that of [Date.now()]; the
    operation passed in carries [type] and [payload]. *)
Definition addToQueue (id : string) (now : Z)
    (type : string) (payload : WSMessage) (s : TaskState) : TaskState :=
  let queuedOp :=
    {| qo_id := id; qo_type := type; qo_payload := payload;
       qo_timestamp := now; qo_retryCount := 0 |} in
  set_offlineQueue (offlineQueue s ++ [queuedOp]) s.

Definition removeFromQueue (operationId : string) (s : TaskState) : TaskState :=
  set_offlineQueue
    (filter (fun op => String.eqb (qo_id op) operationId = false)
       (offlineQueue s)) s.

Definition setPendingOperation (messageId type : string)
    (originalTask : option Task) (s : TaskState) : TaskState :=
  set_pendingOperations
    (<[messageId := mkPendingOperation type originalTask]> (pendingOperations s)) s.

Definition resolvePendingOperation (messageId : string) (s : TaskState)
    : TaskState :=
  set_pendingOperations (delete messageId (pendingOperations s)) s.

End Store.

End TaskStore.

(* ===================================================================== *)
(** ** Frontend: hooks/useWebSocket.ts                                    *)
(* ===================================================================== *)

Module UseWebSocket.

Import TaskStore.

(** [currentUserId || 'unknown']: [null] and the empty string are falsy. *)
Definition orUnknown (id : option string) : string :=
  match id with
  | None => "unknown"
  | Some EmptyString => "unknown"
  | Some id => id
  end.

(** [sendMessage]: [isOpen] is [wsRef.current?.readyState === OPEN],
    [messageId] and [queueId] are the two [uuidv4()] values.  The result
    is the state, the frames written to the socket and the message id. *)
Definition sendMessage (isOpen : bool) (messageId queueId : string) (now : Z)
    (type : string) (payload : ClientPayload) (s : TaskState)
    : TaskState * list WSMessage * string :=
  let fullMessage :=
    {| msg_type := type;
       msg_payload := payload;
       msg_clientId := orUnknown (currentUserId s);
       msg_timestamp := now;
       msg_messageId := messageId |} in
  if isOpen then (s, [fullMessage], messageId)
  else (addToQueue queueId now type fullMessage s, [], messageId).

(** The replay loop of [ws.onopen]: [queue.forEach] over the array read
    once before the loop; [ready i] is [ws.readyState === OPEN] as seen
    by iteration [i]; [wire] collects the frames written. *)
Fixpoint replayFrom (ready : nat -> bool) (i : nat)
    (queue : list QueuedOperation) (s : TaskState) (wire : list WSMessage)
    : TaskState * list WSMessage :=
  match queue with
  | [] => (s, wire)
  | operation :: rest =>
      if ready i then
        replayFrom ready (S i) rest
          (removeFromQueue (qo_id operation) s) (wire ++ [qo_payload operation])
      else replayFrom ready (S i) rest s wire
  end.

Definition onopen (ready : nat -> bool) (s : TaskState)
    : TaskState * list WSMessage :=
  let s := setConnectionStatus connected s in
  let queue := offlineQueue s in
  replayFrom ready 0 queue s [].

(** The messages of the server that change the task list or the
    pending-operation map. *)
Inductive ServerMessage : Type :=
| SyncAck (messageId : string) (task : option Task)
| TaskCreate (task : Task)
| TaskUpdate (task : Task)
| TaskMove (task : Task)
| TaskDelete (id : string).

Section Handler.

Variable localeCompare : Position -> Position -> Z.

Definition handleMessage (message : ServerMessage) (s : TaskState) : TaskState :=
  match message with
  | SyncAck messageId task =>
      let s := resolvePendingOperation messageId s in
      match task with
      | Some task =>
          match getTaskById (task_id task) s with
          | Some _ => updateTask localeCompare task s
          | None => addTask localeCompare task s
          end
      | None => s
      end
  | TaskCreate task => addTask localeCompare task s
  | TaskUpdate task => updateTask localeCompare task s
  | TaskMove task => updateTask localeCompare task s
  | TaskDelete id => removeTask id s
  end.

End Handler.

End UseWebSocket.

(* ===================================================================== *)
(** ** Frontend: reconciliation actions of store/taskStore.ts             *)
(* ===================================================================== *)

Module TaskStoreReconcile.

Import TaskStore.

Record ConflictNotification : Type := mkConflictNotification {
  cn_id : string;
  cn_type : TaskService.ConflictType;
  cn_message : string;
  cn_timestamp : Z
}.

(** The store's state with its list of conflict notifications: [core]
    holds the fields of [TaskState]. *)
Record StoreState : Type := mkStoreState {
  core : TaskState;
  conflicts : list ConflictNotification
}.

(** [addConflict]: [id] is the value of [uuidv4()], [now] that of
    [Date.now()].  The timer it starts calls [removeConflict] with the same
    id five seconds later. *)
Definition addConflict (id : string) (now : Z)
    (type : TaskService.ConflictType) (message : string) (s : StoreState)
    : StoreState :=
  {| core := core s;
     conflicts := conflicts s ++
       [{| cn_id := id; cn_type := type; cn_message := message;
           cn_timestamp := now |}] |}.

Definition removeConflict (conflictId : string) (s : StoreState) : StoreState :=
  {| core := core s;
     conflicts :=
       List.filter (fun c => negb (String.eqb (cn_id c) conflictId)) (conflicts s) |}.

Section Reconcile.

Variable localeCompare : Position -> Position -> Z.

Definition revertPendingOperation (messageId : string) (s : TaskState) : TaskState :=
  let pending := pendingOperations s !! messageId in
  let newPending := delete messageId (pendingOperations s) in
  match pending with
  | Some {| po_originalTask := Some original |} =>
      set_pendingOperations newPending
        (set_tasks
           (sortTasksByPosition localeCompare
              ((fun task =>
                  if String.eqb (task_id task) (task_id original)
                  then original else task) <$> tasks s)) s)
  | _ => set_pendingOperations newPending s
  end.

End Reconcile.

End TaskStoreReconcile.

(* ===================================================================== *)
(** ** Frontend: the optimistic move of store/taskStore.ts                *)
(* ===================================================================== *)

Module TaskStoreMove.

Import TaskStore.

(** The store has key helpers of its own, over an alphabet that starts
    with the letters. *)
Definition BASE_CHARS : list ascii :=
  pos "ABCDEFGHIJKLMNOPQRSTUVWXYZabcdefghijklmnopqrstuvwxyz0123456789".

Definition BASE : Z := Z.of_nat (length BASE_CHARS).

Definition charToIndex (char : ascii) : Z :=
  let index := indexOf char BASE_CHARS 0 in
  if index =? -1 then 0 else index.

Definition indexToChar (index : Z) : ascii :=
  charAt BASE_CHARS (Z.to_nat (Z.max 0 (Z.min index (BASE - 1)))).

(** Both loops run from the right and return at the first symbol that can
    be stepped; [scanDown] gives that index, [-1] when there is none. *)
Definition decrementPosition (p : Position) : Position :=
  let i := scanDown (fun c => negb (charToIndex c >? 0)) p (length p) in
  if i <? 0 then indexToChar 0 :: p
  else
    let i := Z.to_nat i in
    take (S i) (<[i := indexToChar (charToIndex (charAt p i) - 1)]> p)
      ++ replicate (length p - S i) (indexToChar (BASE - 1)).

(** The symbols passed on the way were set to the first symbol. *)
Definition incrementPosition (p : Position) : Position :=
  let i := scanDown (fun c => negb (charToIndex c <? BASE - 1)) p (length p) in
  if i <? 0 then p ++ [indexToChar 1]
  else
    let i := Z.to_nat i in
    take (S i) (<[i := indexToChar (charToIndex (charAt p i) + 1)]> p)
      ++ replicate (length p - S i) (indexToChar 0).

Fixpoint midpointFrom (paddedBefore paddedAfter : Position)
    (i n : nat) (result : Position) (foundDiff : bool) : Position :=
  match n with
  | O => result ++ [indexToChar (BASE / 2)]
  | S n' =>
      let beforeIdx := charToIndex (charAt paddedBefore i) in
      let afterIdx := charToIndex (charAt paddedAfter i) in
      if negb foundDiff && (beforeIdx =? afterIdx) then
        midpointFrom paddedBefore paddedAfter (S i) n'
          (result ++ [charAt paddedBefore i]) false
      else
        let mid := (beforeIdx + afterIdx) / 2 in
        if mid >? beforeIdx then result ++ [indexToChar mid]
        else
          midpointFrom paddedBefore paddedAfter (S i) n'
            (result ++ [charAt paddedBefore i]) true
  end.

Definition midpoint (before after : Position) : Position :=
  let maxLen := Nat.max (length before) (length after) in
  let paddedBefore := padEnd before maxLen (charAt BASE_CHARS 0) in
  let paddedAfter := padEnd after maxLen (charAt BASE_CHARS 0) in
  midpointFrom paddedBefore paddedAfter 0 maxLen [] false.

(** [array[i]] for an integer [i]: [undefined] out of range. *)
Definition elementAt {A} (l : list A) (i : Z) : option A :=
  if i <? 0 then None else l !! Z.to_nat i.

Section Move.

Variable localeCompare : Position -> Position -> Z.

Definition moveTask (taskId : string) (column : Column) (newIndex : Z)
    (s : TaskState) : TaskState :=
  match find (fun t => String.eqb (task_id t) taskId) (tasks s) with
  | None => s
  | Some task =>
      let tasksWithoutMoved :=
        filter (fun t => String.eqb (task_id t) taskId = false) (tasks s) in
      let columnTasks :=
        filter (fun t => Column_eqb (task_column t) column = true)
          tasksWithoutMoved in
      let beforeTask := elementAt columnTasks (newIndex - 1) in
      let afterTask := elementAt columnTasks newIndex in
      let newPosition :=
        match beforeTask, afterTask with
        | None, None => pos "Mzzzzz"
        | None, Some afterTask => decrementPosition (task_position afterTask)
        | Some beforeTask, None => incrementPosition (task_position beforeTask)
        | Some beforeTask, Some afterTask =>
            midpoint (task_position beforeTask) (task_position afterTask)
        end in
      let movedTask :=
        {| task_id := task_id task;
           task_title := task_title task;
           task_description := task_description task;
           task_column := column;
           task_position := newPosition;
           task_version := task_version task;
           task_createdAt := task_createdAt task;
           task_updatedAt := task_updatedAt task |} in
      set_tasks
        (sortTasksByPosition localeCompare (tasksWithoutMoved ++ [movedTask])) s
  end.

End Move.

End TaskStoreMove.

(* ===================================================================== *)
(** ** Frontend: commands and reconciliation in hooks/useWebSocket.ts     *)
(* ===================================================================== *)

Module UseWebSocketCommands.

Import TaskStore TaskStoreReconcile UseWebSocket.

Definition RECONNECT_DELAY : Z := 1000.
Definition MAX_RECONNECT_DELAY : Z := 30000.

(** What happens to [reconnectDelayRef]: the socket opens, or the timer
    set by [onclose] fires. *)
Inductive ReconnectEvent : Type := SocketOpened | RetryTimerFired.

Definition reconnectStep (delay : Z) (e : ReconnectEvent) : Z :=
  match e with
  | SocketOpened => RECONNECT_DELAY
  | RetryTimerFired => Z.min (delay * 2) MAX_RECONNECT_DELAY
  end.

(** The delay held after a run of events, starting from the initial one. *)
Definition reconnectDelayAfter (events : list ReconnectEvent) : Z :=
  fold_left reconnectStep events RECONNECT_DELAY.

Section Commands.

Variable localeCompare : Position -> Position -> Z.

(** The hook's commands: [isOpen], [messageId], [queueId] and [now] are
    those of the [sendMessage] call inside. *)
Definition createTask (isOpen : bool) (messageId queueId : string) (now : Z)
    (title description : string) (column : Column) (s : TaskState)
    : TaskState * list WSMessage * string :=
  sendMessage isOpen messageId queueId now "task:create"
    (CreatePayload title description column) s.

Definition editTask (isOpen : bool) (messageId queueId : string) (now : Z)
    (task : Task) (title description : string) (s : TaskState)
    : TaskState * list WSMessage * string :=
  let originalTask := getTaskById (task_id task) s in
  let optimisticTask :=
    {| task_id := task_id task;
       task_title := title;
       task_description := description;
       task_column := task_column task;
       task_position := task_position task;
       task_version := task_version task;
       task_createdAt := task_createdAt task;
       task_updatedAt := task_updatedAt task |} in
  let s := updateTask localeCompare optimisticTask s in
  let '(s, frames, messageId) :=
    sendMessage isOpen messageId queueId now "task:update"
      (UpdatePayload (task_id task) title description (task_version task)) s in
  (setPendingOperation messageId "update" originalTask s, frames, messageId).

Definition deleteTask (isOpen : bool) (messageId queueId : string) (now : Z)
    (task : Task) (s : TaskState) : TaskState * list WSMessage * string :=
  let originalTask := getTaskById (task_id task) s in
  let s := removeTask (task_id task) s in
  let '(s, frames, messageId) :=
    sendMessage isOpen messageId queueId now "task:delete"
      (DeletePayload (task_id task) (task_version task)) s in
  (setPendingOperation messageId "delete" originalTask s, frames, messageId).

Definition moveTaskToColumn (isOpen : bool) (messageId queueId : string) (now : Z)
    (task : Task) (column : Column) (targetIndex : Z) (s : TaskState)
    : TaskState * list WSMessage * string :=
  let originalTask := getTaskById (task_id task) s in
  let s := TaskStoreMove.moveTask localeCompare (task_id task) column targetIndex s in
  let '(s, frames, messageId) :=
    sendMessage isOpen messageId queueId now "task:move"
      (MovePayload (task_id task) column targetIndex (task_version task)) s in
  (setPendingOperation messageId "move" originalTask s, frames, messageId).

(** The [conflict:notification] case of [handleMessage]; [notificationId]
    and [now] are those of [addConflict]. *)
Definition handleConflictNotification (notificationId : string) (now : Z)
    (messageId : string) (conflict : TaskService.Conflict) (s : StoreState)
    : StoreState :=
  let s := {| core := revertPendingOperation localeCompare messageId (core s);
              conflicts := conflicts s |} in
  let s := addConflict notificationId now
             (TaskService.conflict_type conflict)
             (TaskService.conflict_message conflict) s in
  match TaskService.conflict_currentTask conflict with
  | Some current =>
      {| core := updateTask localeCompare current (core s);
         conflicts := conflicts s |}
  | None => s
  end.

(** The [error] case of [handleMessage]: an absent or empty
    [originalMessageId] is falsy. *)
Definition handleError (originalMessageId : option string) (s : TaskState)
    : TaskState :=
  match originalMessageId with
  | None => s
  | Some EmptyString => s
  | Some messageId => revertPendingOperation localeCompare messageId s
  end.

End Commands.

End UseWebSocketCommands.

(* ===================================================================== *)
(** ** Reference definitions used to state the properties                 *)
(* ===================================================================== *)

(** Digit-by-digit comparison of two digit sequences in which the shorter
    one is padded with the digit [fill]: the first differing digits decide,
    by their difference. *)
Fixpoint lexSame (xs ys : list Z) : Z :=
  match xs, ys with
  | x :: xs', y :: ys' => if x =? y then lexSame xs' ys' else x - y
  | _, _ => 0
  end.

Definition padDigits (fill : Z) (n : nat) (xs : list Z) : list Z :=
  xs ++ replicate (n - length xs) fill.

Definition paddedCompare (fill : Z) (xs ys : list Z) : Z :=
  let n := Nat.max (length xs) (length ys) in
  lexSame (padDigits fill n xs) (padDigits fill n ys).

Definition digits (p : Position) : list Z := charToIndex <$> p.

(** The relation induced by [comparePositions]. *)
Definition posLt (a b : Position) : Prop := comparePositions a b < 0.

(** The value a call returns, if it returns. *)
Definition returned {A} (o : Outcome A) : option A :=
  match o with
  | Returns a => Some a
  | ThrowsInvalidOrder _ _ => None
  end.

(** Every symbol of the key is in the alphabet. *)
Definition validChars (p : Position) : bool :=
  forallb (fun c => includes c BASE_CHARS) p.

(** The keys obtained by inserting [n] times after the last key. *)
Fixpoint keysAfter (n : nat) (last : Position) : list Position :=
  match n with
  | O => []
  | S n' =>
      match generatePositionAfter last with
      | Returns p => p :: keysAfter n' p
      | ThrowsInvalidOrder _ _ => []
      end
  end.

(** Each key of the list compares below the next one. *)
Fixpoint increasing (l : list Position) : bool :=
  match l with
  | a :: (b :: _) as rest => (comparePositions a b <? 0) && increasing rest
  | _ => true
  end.

(** Every row is filed under its own identifier and has a positive
    version. *)
Definition wellFormed (table : gmap string TaskRepository.TaskRow) : Prop :=
  forall id r, table !! id = Some r ->
    TaskRepository.row_id r = id /\ 0 < TaskRepository.row_version r.

(** The frames of an outbox addressed to client [c], in sending order. *)
Definition framesTo (c : string) (out : list (string * WebSocketHandler.ServerFrame))
    : list (string * WebSocketHandler.ServerFrame) :=
  List.filter (fun x => String.eqb (fst x) c) out.

(** The replacement the store's [map] calls perform: a task with the id
    of [t] becomes [t], any other task stays. *)
Definition replaceById (t : Task) (task : Task) : Task :=
  if String.eqb (task_id task) (task_id t) then t else task.

(** Sample data for the instances below: an identifier check that looks
    at the length only, a stored row and the table that holds it. *)
Definition uuidLength (s : string) : bool := Nat.eqb (String.length s) 36.

Definition sampleId : string := "3f2b8c1e-0d4a-4b6f-9c3d-2a1b0c9d8e7f".

Definition sampleRow : TaskRepository.TaskRow :=
  {| TaskRepository.row_id := sampleId;
     TaskRepository.row_title := "Write report";
     TaskRepository.row_description := "Quarterly numbers";
     TaskRepository.row_column := in_progress;
     TaskRepository.row_position := pos "V";
     TaskRepository.row_version := 2;
     TaskRepository.row_created_at := 1000;
     TaskRepository.row_updated_at := 2000 |}.

Definition sampleTable : gmap string TaskRepository.TaskRow :=
  {[ sampleId := sampleRow ]}.

Definition sampleUpdate : UpdateTaskInput :=
  {| update_id := sampleId; update_title := Some "Write the report"%string;
     update_description := None; update_version := 2 |}.

Definition sampleBareUpdate : UpdateTaskInput :=
  {| update_id := sampleId; update_title := None;
     update_description := None; update_version := 2 |}.

Definition sampleStaleUpdate : UpdateTaskInput :=
  {| update_id := sampleId; update_title := Some "Stale title"%string;
     update_description := None; update_version := 1 |}.

Definition sampleStaleMove : MoveTaskInput :=
  {| move_id := sampleId; move_column := done;
     move_position := pos "W"; move_version := 1 |}.

Definition sampleStaleDelete : DeleteTaskInput :=
  {| delete_id := sampleId; delete_version := 1 |}.

Definition sampleNewId : string := "9a1c7e52-6b3f-4d2a-8e4c-5f6a7b8c9d0e".

Definition sampleCreate : TaskService.RawCreateTask :=
  {| TaskService.raw_title := "Review draft";
     TaskService.raw_description := None;
     TaskService.raw_column := Some in_progress |}.

Definition sampleAckTask : Task :=
  {| task_id := sampleId; task_title := "Write the report";
     task_description := "Quarterly numbers"; task_column := in_progress;
     task_position := pos "V"; task_version := 3;
     task_createdAt := 1000; task_updatedAt := 3000 |}.

Definition sampleClientState : TaskStore.TaskState :=
  {| TaskStore.tasks := [TaskRepository.rowToTask sampleRow];
     TaskStore.currentUserId := Some "client-1"%string;
     TaskStore.connectionStatus := connected;
     TaskStore.offlineQueue := [];
     TaskStore.pendingOperations :=
       {[ "message-1"%string :=
            {| po_type := "update";
               po_originalTask := Some (TaskRepository.rowToTask sampleRow) |} ]} |}.

Definition sampleMove : MoveTaskInput :=
  {| move_id := sampleId; move_column := done;
     move_position := pos "W"; move_version := 2 |}.

Definition sampleMissingUpdate : UpdateTaskInput :=
  {| update_id := sampleNewId; update_title := Some "Nobody home"%string;
     update_description := None; update_version := 1 |}.

Definition sampleMissingMove : MoveTaskInput :=
  {| move_id := sampleNewId; move_column := todo;
     move_position := pos "V"; move_version := 1 |}.

Definition sampleMissingDelete : DeleteTaskInput :=
  {| delete_id := sampleNewId; delete_version := 1 |}.

Definition sampleClients : list (string * bool) :=
  [("client-a"%string, true); ("client-b"%string, true); ("client-c"%string, false)].

Definition sampleFirst : WebSocketHandler.Stamp :=
  {| WebSocketHandler.stamp_now := 3001; WebSocketHandler.stamp_id := "frame-1" |}.

Definition sampleSecond : WebSocketHandler.Stamp :=
  {| WebSocketHandler.stamp_now := 3002; WebSocketHandler.stamp_id := "frame-2" |}.

Definition sampleUpdateCommand : WebSocketHandler.Command UpdateTaskInput :=
  WebSocketHandler.mkCommand "message-1" sampleUpdate.

Definition sampleLocalTask : Task := TaskRepository.rowToTask sampleRow.

Definition sampleDeleteConflict : TaskService.Conflict :=
  {| TaskService.conflict_type := TaskService.version_mismatch;
     TaskService.conflict_currentVersion := None;
     TaskService.conflict_currentTask := None;
     TaskService.conflict_message := TaskService.msgDeleteConflict |}.

Definition sampleEditConflict : TaskService.Conflict :=
  {| TaskService.conflict_type := TaskService.version_mismatch;
     TaskService.conflict_currentVersion := Some 3;
     TaskService.conflict_currentTask := Some sampleAckTask;
     TaskService.conflict_message := TaskService.msgUpdateConflict |}.

(** A record whose version is the greatest the store can hold, and
    requests that carry that version. *)
Definition sampleLastRow : TaskRepository.TaskRow :=
  {| TaskRepository.row_id := sampleId;
     TaskRepository.row_title := "Write report";
     TaskRepository.row_description := "Quarterly numbers";
     TaskRepository.row_column := in_progress;
     TaskRepository.row_position := pos "V";
     TaskRepository.row_version := 2147483647;
     TaskRepository.row_created_at := 1000;
     TaskRepository.row_updated_at := 2000 |}.

Definition sampleLastTable : gmap string TaskRepository.TaskRow :=
  {[ sampleId := sampleLastRow ]}.


Definition sampleLastBareUpdate : UpdateTaskInput :=
  {| update_id := sampleId; update_title := None;
     update_description := None; update_version := 2147483647 |}.

(* ===================================================================== *)
(** * Properties of the ordering keys                                     *)
(* ===================================================================== *)

Section AlphabetFacts.

Lemma charToIndex_range (c : ascii) : 0 <= charToIndex c <= 61.
Proof.
  destruct c as [[] [] [] [] [] [] [] []]; vm_compute; split; discriminate.
Qed.

Lemma BASE_value : BASE = 62.
Proof. reflexivity. Qed.

Lemma charToIndex_indexToChar (i : Z) :
  0 <= i <= 61 -> charToIndex (indexToChar i) = i.
Proof.
  intros Hi.
  assert (Hall : forallb (fun n => charToIndex (indexToChar (Z.of_nat n)) =? Z.of_nat n)
                   (seq 0 62) = true) by (vm_compute; reflexivity).
  rewrite forallb_forall in Hall. specialize (Hall (Z.to_nat i)).
  rewrite Z2Nat.id in Hall by lia. apply Z.eqb_eq, Hall, in_seq. lia.
Qed.

Lemma indexToChar_charToIndex (c : ascii) :
  includes c BASE_CHARS = true -> indexToChar (charToIndex c) = c.
Proof.
  destruct c as [[] [] [] [] [] [] [] []]; vm_compute; congruence.
Qed.

Lemma charToIndex_inj (c d : ascii) :
  includes c BASE_CHARS = true -> includes d BASE_CHARS = true ->
  charToIndex c = charToIndex d -> c = d.
Proof.
  intros Hc Hd E.
  rewrite <- (indexToChar_charToIndex c Hc), <- (indexToChar_charToIndex d Hd).
  now rewrite E.
Qed.

Lemma charToIndex_MID : charToIndex MID_CHAR = 31.
Proof. reflexivity. Qed.

End AlphabetFacts.

(** Brings the range of every symbol index in sight into the context. *)
Ltac index_ranges :=
  repeat match goal with
    | c : ascii |- _ =>
        lazymatch goal with
        | _ : 0 <= charToIndex c <= 61 |- _ => fail
        | _ => pose proof (charToIndex_range c)
        end
    end.

Section CompareFacts.

Local Arguments Z.eqb : simpl never.
Local Arguments Z.sub : simpl never.
Local Arguments Z.add : simpl never.
Local Arguments charToIndex : simpl never.

Lemma compareFrom_cons x a y b i n :
  compareFrom (x :: a) (y :: b) (S i) n = compareFrom a b i n.
Proof.
  revert i. induction n as [|n IH]; intros i; simpl; [reflexivity|].
  now rewrite IH.
Qed.

Lemma comparePositions_nil : comparePositions [] [] = 0.
Proof. reflexivity. Qed.

Lemma comparePositions_nil_l y b :
  comparePositions [] (y :: b) = -1 - charToIndex y.
Proof.
  unfold comparePositions. simpl.
  pose proof (charToIndex_range y).
  destruct (-1 =? charToIndex y) eqn:E; [lia | reflexivity].
Qed.

Lemma comparePositions_nil_r x a :
  comparePositions (x :: a) [] = charToIndex x + 1.
Proof.
  unfold comparePositions. simpl.
  pose proof (charToIndex_range x).
  destruct (charToIndex x =? -1) eqn:E; simpl; lia.
Qed.

Lemma comparePositions_cons x a y b :
  comparePositions (x :: a) (y :: b) =
  if charToIndex x =? charToIndex y then comparePositions a b
  else charToIndex x - charToIndex y.
Proof.
  unfold comparePositions. simpl.
  destruct (charToIndex x =? charToIndex y); simpl; [|reflexivity].
  apply compareFrom_cons.
Qed.

Lemma comparePositions_opp a b :
  comparePositions b a = - comparePositions a b.
Proof.
  revert b. induction a as [|x a IH]; intros [|y b].
  - reflexivity.
  - rewrite comparePositions_nil_l, comparePositions_nil_r. lia.
  - rewrite comparePositions_nil_l, comparePositions_nil_r. lia.
  - rewrite !comparePositions_cons, (Z.eqb_sym (charToIndex y)).
    destruct (charToIndex x =? charToIndex y); [apply IH | lia].
Qed.

Lemma comparePositions_refl a : comparePositions a a = 0.
Proof.
  induction a as [|x a IH]; [reflexivity|].
  now rewrite comparePositions_cons, Z.eqb_refl.
Qed.

(** Transitivity, in the form that also covers ties. *)
Lemma comparePositions_le_trans a b c :
  comparePositions a b <= 0 -> comparePositions b c <= 0 ->
  comparePositions a c <= 0
  /\ (comparePositions a b < 0 \/ comparePositions b c < 0 ->
      comparePositions a c < 0).
Proof.
  revert b c. induction a as [|x a IH]; intros [|y b] [|z c];
    rewrite ?comparePositions_nil, ?comparePositions_nil_l,
      ?comparePositions_nil_r, ?comparePositions_cons;
    index_ranges; try lia.
  destruct (charToIndex x =? charToIndex y) eqn:Exy;
    destruct (charToIndex y =? charToIndex z) eqn:Eyz;
    destruct (charToIndex x =? charToIndex z) eqn:Exz;
    try apply IH; lia.
Qed.

Lemma posLt_trans a b c : posLt a b -> posLt b c -> posLt a c.
Proof.
  unfold posLt. intros Hab Hbc.
  apply (comparePositions_le_trans a b c); lia.
Qed.

Lemma posLt_irrefl a : ~ posLt a a.
Proof. unfold posLt. rewrite comparePositions_refl. lia. Qed.

Lemma isValidPosition_cons x a :
  isValidPosition (x :: a) = true ->
  includes x BASE_CHARS = true /\ (a = [] \/ isValidPosition a = true).
Proof.
  simpl. intros H. apply andb_true_iff in H as [Hx Ha]. split; [exact Hx|].
  destruct a; [now left | right; exact Ha].
Qed.

Lemma comparePositions_eq_valid a b :
  forallb (fun c => includes c BASE_CHARS) a = true ->
  forallb (fun c => includes c BASE_CHARS) b = true ->
  comparePositions a b = 0 -> a = b.
Proof.
  revert b. induction a as [|x a IH]; intros [|y b] Ha Hb;
    rewrite ?comparePositions_nil_l, ?comparePositions_nil_r,
      ?comparePositions_cons;
    index_ranges; try lia; [reflexivity|].
  simpl in Ha, Hb.
  apply andb_true_iff in Ha as [Hx Ha]. apply andb_true_iff in Hb as [Hy Hb].
  destruct (charToIndex x =? charToIndex y) eqn:E; [|lia].
  intros Hzero. f_equal; [|now apply IH].
  apply charToIndex_inj; [assumption..|lia].
Qed.

Lemma isValidPosition_forallb a :
  isValidPosition a = true -> forallb (fun c => includes c BASE_CHARS) a = true.
Proof. destruct a; [discriminate | trivial]. Qed.

Lemma comparePositions_app_same pre a b :
  comparePositions (pre ++ a) (pre ++ b) = comparePositions a b.
Proof.
  induction pre as [|x pre IH]; [reflexivity|].
  simpl. now rewrite comparePositions_cons, Z.eqb_refl.
Qed.

End CompareFacts.

Section NeighbourFacts.

Local Arguments Z.eqb : simpl never.
Local Arguments Z.sub : simpl never.
Local Arguments Z.add : simpl never.
Local Arguments charToIndex : simpl never.
Local Arguments indexToChar : simpl never.

Lemma scanDown_spec skip p k :
  (scanDown skip p k = -1
   /\ forall j, (j < k)%nat -> skip (charAt p j) = true)
  \/ exists i, scanDown skip p k = Z.of_nat i /\ (i < k)%nat
       /\ skip (charAt p i) = false
       /\ forall j, (i < j < k)%nat -> skip (charAt p j) = true.
Proof.
  induction k as [|k IH]; simpl.
  - left. split; [reflexivity | intros j Hj; lia].
  - destruct (skip (charAt p k)) eqn:E.
    + destruct IH as [[H1 H2] | (i & H1 & H2 & H3 & H4)].
      * left. split; [exact H1|]. intros j Hj.
        destruct (decide (j = k)) as [->|]; [exact E | apply H2; lia].
      * right. exists i. repeat split; [exact H1 | lia | exact H3 |].
        intros j Hj. destruct (decide (j = k)) as [->|]; [exact E | apply H4; lia].
    + right. exists k. repeat split; [lia | exact E |]. intros j Hj; lia.
Qed.

Lemma charAt_lookup p i :
  (i < length p)%nat -> p !! i = Some (charAt p i).
Proof.
  intros Hi. unfold charAt. rewrite nth_lookup.
  destruct (lookup_lt_is_Some_2 p i Hi) as [x ->]. reflexivity.
Qed.

Lemma split_at p i :
  (i < length p)%nat -> p = take i p ++ charAt p i :: drop (S i) p.
Proof.
  intros Hi. symmetry. apply take_drop_middle, charAt_lookup, Hi.
Qed.

Lemma take_S_insert p i (c : ascii) :
  (i < length p)%nat -> take (S i) (<[i := c]> p) = take i p ++ [c].
Proof.
  intros Hi.
  rewrite (take_S_r _ _ c) by (apply list_lookup_insert_eq; exact Hi).
  rewrite take_insert_ge by lia. reflexivity.
Qed.

Lemma incrementPosition_found p i :
  scanDown (fun c => charToIndex c =? BASE - 1) p (length p) = Z.of_nat i ->
  (i < length p)%nat ->
  incrementPosition p = take i p ++ [indexToChar (charToIndex (charAt p i) + 1)].
Proof.
  intros Hscan Hi. unfold incrementPosition. rewrite Hscan.
  destruct (Z.of_nat i <? 0) eqn:E; [lia|].
  rewrite Nat2Z.id. apply take_S_insert, Hi.
Qed.

Lemma decrementPosition_found p i :
  scanDown (fun c => charToIndex c =? 0) p (length p) = Z.of_nat i ->
  (i < length p)%nat ->
  decrementPosition p =
    take i p ++ indexToChar (charToIndex (charAt p i) - 1)
      :: replicate (length p - S i) (indexToChar (BASE - 1)) ++ [MID_CHAR].
Proof.
  intros Hscan Hi. unfold decrementPosition. rewrite Hscan.
  destruct (Z.of_nat i <? 0) eqn:E; [lia|].
  rewrite Nat2Z.id, take_S_insert, length_insert by exact Hi.
  rewrite <- !app_assoc. reflexivity.
Qed.

(** The key after [p] is greater than [p], whatever [p] is. *)
Lemma incrementPosition_greater p :
  comparePositions p (incrementPosition p) < 0.
Proof.
  destruct (scanDown_spec (fun c => charToIndex c =? BASE - 1) p (length p))
    as [[Hscan _] | (i & Hscan & Hi & Hnot & _)].
  - unfold incrementPosition. rewrite Hscan. simpl.
    rewrite <- (app_nil_r p) at 1.
    rewrite comparePositions_app_same, comparePositions_nil_l.
    pose proof (charToIndex_range MID_CHAR). lia.
  - rewrite (incrementPosition_found p i Hscan Hi).
    rewrite (split_at p i Hi) at 1.
    rewrite comparePositions_app_same, comparePositions_cons.
    pose proof (charToIndex_range (charAt p i)) as Hr.
    rewrite BASE_value in Hnot.
    rewrite charToIndex_indexToChar by lia.
    destruct (charToIndex (charAt p i) =? charToIndex (charAt p i) + 1) eqn:E; lia.
Qed.

(** The key before [p] is smaller than [p] as soon as [p] has a symbol
    above the minimum. *)
Lemma decrementPosition_smaller p :
  existsb (fun c => negb (charToIndex c =? 0)) p = true ->
  comparePositions (decrementPosition p) p < 0.
Proof.
  intros Hex.
  destruct (scanDown_spec (fun c => charToIndex c =? 0) p (length p))
    as [[_ Hall] | (i & Hscan & Hi & Hnot & _)].
  - exfalso. apply existsb_exists in Hex as (c & Hc & Hnz).
    apply (In_nth _ _ "0"%char) in Hc as (j & Hj & Hcj).
    specialize (Hall j Hj). unfold charAt in Hall. rewrite Hcj in Hall.
    rewrite Hall in Hnz. discriminate.
  - rewrite (decrementPosition_found p i Hscan Hi).
    pose proof (split_at p i Hi) as Hp.
    set (tail := replicate _ _ ++ _).
    remember (take i p) as pre. remember (charAt p i) as x.
    clearbody tail. rewrite Hp at 1.
    rewrite comparePositions_app_same, comparePositions_cons.
    pose proof (charToIndex_range x) as Hr.
    rewrite charToIndex_indexToChar by lia.
    destruct (charToIndex x - 1 =? charToIndex x) eqn:E; lia.
Qed.

Lemma generatePositionAfter_returns p :
  generatePositionAfter p =
    Returns (match p with [] => generateInitialPosition | _ => incrementPosition p end).
Proof. destruct p; reflexivity. Qed.

Lemma generatePositionBefore_returns p :
  generatePositionBefore p =
    Returns (match p with [] => generateInitialPosition | _ => decrementPosition p end).
Proof. destruct p; reflexivity. Qed.

(** [generatePositionAfter] always returns, and what it returns is
    greater than its argument. *)
Lemma generatePositionAfter_greater p :
  exists m, generatePositionAfter p = Returns m /\ comparePositions p m < 0.
Proof.
  rewrite generatePositionAfter_returns. eexists; split; [reflexivity|].
  destruct p as [|x p]; [reflexivity | apply incrementPosition_greater].
Qed.

End NeighbourFacts.

Section PaddedComparison.

Local Arguments Z.eqb : simpl never.
Local Arguments Z.sub : simpl never.
Local Arguments charToIndex : simpl never.

Lemma paddedCompare_cons fill x xs y ys :
  paddedCompare fill (x :: xs) (y :: ys) =
  if x =? y then paddedCompare fill xs ys else x - y.
Proof. reflexivity. Qed.

Lemma paddedCompare_nil_l fill y ys :
  fill <> y -> paddedCompare fill [] (y :: ys) = fill - y.
Proof.
  intros Hne. unfold paddedCompare, padDigits. simpl.
  destruct (fill =? y) eqn:E; [lia | reflexivity].
Qed.

Lemma paddedCompare_nil_r fill x xs :
  x <> fill -> paddedCompare fill (x :: xs) [] = x - fill.
Proof.
  intros Hne. unfold paddedCompare, padDigits. simpl.
  destruct (x =? fill) eqn:E; [lia | reflexivity].
Qed.

(** [comparePositions] is the digit-by-digit comparison in which the
    shorter key is padded with a digit below every symbol of the
    alphabet. *)
Lemma comparePositions_paddedCompare a b :
  comparePositions a b = paddedCompare (-1) (digits a) (digits b).
Proof.
  revert b. induction a as [|x a IH]; intros [|y b]; index_ranges.
  - reflexivity.
  - rewrite comparePositions_nil_l. unfold digits. rewrite fmap_cons.
    rewrite paddedCompare_nil_l by lia. reflexivity.
  - rewrite comparePositions_nil_r. unfold digits. rewrite fmap_cons.
    rewrite paddedCompare_nil_r by lia. lia.
  - rewrite comparePositions_cons. unfold digits. rewrite !fmap_cons.
    rewrite paddedCompare_cons.
    destruct (charToIndex x =? charToIndex y); [apply IH | reflexivity].
Qed.

End PaddedComparison.

(** C4, as stated, fails: the keys "0" and "00" are valid and agree once the
    shorter is padded with the minimum symbol, yet [comparePositions] tells
    them apart (and so differs from the comparison padded with the minimum
    digit). *)
Lemma comparePositions_min_padding_counterexample :
  isValidPosition (pos "0") = true
  /\ isValidPosition (pos "00") = true
  /\ padEnd (pos "0") 2 (charAt BASE_CHARS 0) = padEnd (pos "00") 2 (charAt BASE_CHARS 0)
  /\ paddedCompare 0 (digits (pos "0")) (digits (pos "00")) = 0
  /\ comparePositions (pos "0") (pos "00") <> 0.
Proof. repeat split; vm_compute; congruence. Qed.

(** C4, amended: on valid keys [comparePositions] is the digit-by-digit
    comparison over the 62-symbol alphabet in which a shorter key is padded
    with a digit strictly below the minimum symbol (a proper prefix comes
    first); the induced relation is a strict total order, and the result is
    0 exactly when the two keys are equal. *)
Theorem comparePositions_strict_total_order (a b c : Position) :
  isValidPosition a = true ->
  isValidPosition b = true ->
  isValidPosition c = true ->
  comparePositions a b = paddedCompare (-1) (digits a) (digits b)
  /\ comparePositions b a = - comparePositions a b
  /\ ~ posLt a a
  /\ (posLt a b -> posLt b c -> posLt a c)
  /\ (posLt a b \/ a = b \/ posLt b a)
  /\ (comparePositions a b = 0 <-> a = b).
Proof.
  intros Ha Hb Hc.
  assert (Heq : comparePositions a b = 0 <-> a = b).
  { split.
    - apply comparePositions_eq_valid; apply isValidPosition_forallb; assumption.
    - intros ->. apply comparePositions_refl. }
  repeat split.
  - apply comparePositions_paddedCompare.
  - apply comparePositions_opp.
  - apply posLt_irrefl.
  - apply posLt_trans.
  - unfold posLt. rewrite (comparePositions_opp a b).
    destruct (Z.lt_trichotomy (comparePositions a b) 0) as [H | [H | H]];
      [left; exact H | right; left; apply Heq, H | right; right; lia].
  - apply Heq.
  - apply Heq.
Qed.

Lemma comparePositions_strict_total_order_witness :
  comparePositions (pos "A") (pos "AA")
    = paddedCompare (-1) (digits (pos "A")) (digits (pos "AA"))
  /\ comparePositions (pos "AA") (pos "A") = - comparePositions (pos "A") (pos "AA")
  /\ ~ posLt (pos "A") (pos "A")
  /\ (posLt (pos "A") (pos "AA") -> posLt (pos "AA") (pos "B") ->
      posLt (pos "A") (pos "B"))
  /\ (posLt (pos "A") (pos "AA") \/ pos "A" = pos "AA" \/ posLt (pos "AA") (pos "A"))
  /\ (comparePositions (pos "A") (pos "AA") = 0 <-> pos "A" = pos "AA").
Proof.
  apply (comparePositions_strict_total_order (pos "A") (pos "AA") (pos "B"));
    reflexivity.
Defined.

Section MidpointFacts.

Local Arguments Z.eqb : simpl never.
Local Arguments Z.gtb : simpl never.
Local Arguments Z.add : simpl never.
Local Arguments Z.div : simpl never.
Local Arguments charToIndex : simpl never.
Local Arguments indexToChar : simpl never.

Lemma midpointFrom_cons x pb y pa i n result :
  midpointFrom (x :: pb) (y :: pa) (S i) n result = midpointFrom pb pa i n result.
Proof.
  revert i result. induction n as [|n IH]; intros i result; simpl; [reflexivity|].
  now rewrite IH.
Qed.

(** The loop copies a common prefix to the result. *)
Lemma midpointFrom_common_prefix pre pb pa n result :
  midpointFrom (pre ++ pb) (pre ++ pa) 0 (length pre + n) result =
  midpointFrom pb pa 0 n (result ++ pre).
Proof.
  revert result. induction pre as [|x pre IH]; intros result.
  - simpl. now rewrite app_nil_r.
  - simpl. rewrite Z.eqb_refl, midpointFrom_cons, IH.
    now rewrite <- app_assoc.
Qed.

(** The second half of C2, which the code does satisfy: when the first
    differing symbols of the padded keys are adjacent, the result is the
    common prefix, the lower symbol and the mid-alphabet symbol. *)
Lemma midpoint_adjacent_shape before after pre x rb y ra :
  comparePositions before after < 0 ->
  padEnd before (Nat.max (length before) (length after)) (charAt BASE_CHARS 0)
    = pre ++ x :: rb ->
  padEnd after (Nat.max (length before) (length after)) (charAt BASE_CHARS 0)
    = pre ++ y :: ra ->
  charToIndex y = charToIndex x + 1 ->
  midpoint before after = Returns (pre ++ [x; MID_CHAR]).
Proof.
  intros Hlt Hb Ha Hadj. unfold midpoint.
  destruct (comparePositions before after >=? 0) eqn:E; [lia|].
  rewrite Hb, Ha. f_equal.
  assert (Hlen : Nat.max (length before) (length after)
                 = (length pre + S (length rb))%nat).
  { apply (f_equal length) in Hb. unfold padEnd in Hb.
    rewrite !length_app, length_replicate in Hb. simpl in Hb. lia. }
  rewrite Hlen, midpointFrom_common_prefix. simpl.
  change (charAt (x :: rb) 0) with x. change (charAt (y :: ra) 0) with y.
  destruct (charToIndex x =? charToIndex y) eqn:Exy; [lia|].
  replace ((charToIndex x + charToIndex y) / 2) with (charToIndex x)
    by (rewrite Hadj; apply Z.div_unique with (r := 1); lia).
  destruct (charToIndex x >? charToIndex x) eqn:Egt; [lia|].
  now rewrite <- app_assoc.
Qed.

Lemma padEnd_split s n c pre x r :
  padEnd s n c = pre ++ x :: r ->
  (exists r', s = pre ++ x :: r')
  \/ (x = c /\ exists k, pre = s ++ replicate k c).
Proof.
  unfold padEnd. generalize (n - length s)%nat as k. revert pre.
  induction s as [|a s IH]; intros pre k H.
  - right. simpl in H. split.
    + assert (Hx : x ∈ replicate k c) by (rewrite H; set_solver).
      now apply elem_of_replicate in Hx as [-> _].
    + exists (length pre `min` k)%nat. simpl.
      rewrite <- take_replicate, H, take_app_length. reflexivity.
  - destruct pre as [|p pre]; simpl in H; injection H as -> H.
    + left. now exists s.
    + destruct (IH pre k H) as [[r' ->] | [Hx [k' ->]]].
      * left. now exists r'.
      * right. split; [exact Hx | now exists k'].
Qed.

(** Where the first differing symbols of the padded keys leave a gap, the
    result is the common prefix and the symbol midway, and it lies strictly
    between the two keys. *)
Lemma midpoint_gap_between before after pre x rb y ra :
  comparePositions before after < 0 ->
  padEnd before (Nat.max (length before) (length after)) (charAt BASE_CHARS 0)
    = pre ++ x :: rb ->
  padEnd after (Nat.max (length before) (length after)) (charAt BASE_CHARS 0)
    = pre ++ y :: ra ->
  charToIndex x + 1 < charToIndex y ->
  let m := pre ++ [indexToChar ((charToIndex x + charToIndex y) / 2)] in
  midpoint before after = Returns m
  /\ comparePositions before m < 0
  /\ comparePositions m after < 0.
Proof.
  intros Hlt Hb Ha Hgap m. index_ranges.
  assert (Hmid : charToIndex x < (charToIndex x + charToIndex y) / 2 < charToIndex y).
  { pose proof (Z.mul_div_le (charToIndex x + charToIndex y) 2 ltac:(lia)).
    pose proof (Z.mul_succ_div_gt (charToIndex x + charToIndex y) 2 ltac:(lia)).
    lia. }
  assert (Hm : charToIndex (indexToChar ((charToIndex x + charToIndex y) / 2))
               = (charToIndex x + charToIndex y) / 2)
    by (apply charToIndex_indexToChar; lia).
  split; [|split].
  - unfold midpoint.
    destruct (comparePositions before after >=? 0) eqn:E; [lia|].
    rewrite Hb, Ha. f_equal.
    assert (Hlen : Nat.max (length before) (length after)
                   = (length pre + S (length rb))%nat).
    { apply (f_equal length) in Hb. unfold padEnd in Hb.
      rewrite !length_app, length_replicate in Hb. simpl in Hb. lia. }
    rewrite Hlen, midpointFrom_common_prefix. simpl.
    change (charAt (x :: rb) 0) with x. change (charAt (y :: ra) 0) with y.
    destruct (charToIndex x =? charToIndex y) eqn:Exy; [lia|].
    destruct ((charToIndex x + charToIndex y) / 2 >? charToIndex x) eqn:Egt; [|lia].
    reflexivity.
  - unfold m. destruct (padEnd_split _ _ _ _ _ _ Hb) as [[r' ->] | [_ [k ->]]].
    + rewrite comparePositions_app_same, comparePositions_cons, Hm.
      destruct (charToIndex x =? _) eqn:E; lia.
    + rewrite <- app_assoc. rewrite <- (app_nil_r before) at 1.
      rewrite comparePositions_app_same.
      destruct k; simpl; rewrite comparePositions_nil_l;
        pose proof (charToIndex_range (charAt BASE_CHARS 0)); lia.
  - unfold m. destruct (padEnd_split _ _ _ _ _ _ Ha) as [[r' ->] | [Hy _]].
    + rewrite comparePositions_app_same, comparePositions_cons, Hm.
      destruct (_ =? charToIndex y) eqn:E; lia.
    + subst y. change (charToIndex (charAt BASE_CHARS 0)) with 0 in *. lia.
Qed.

End MidpointFacts.

(** C2 at a failing input: the keys "VV" and "W" are valid and ordered, and
    the key generated between them is "VV" again, which is not greater than
    the lower neighbour. *)
Theorem midpoint_returns_lower_neighbour :
  isValidPosition (pos "VV") = true
  /\ isValidPosition (pos "W") = true
  /\ comparePositions (pos "VV") (pos "W") < 0
  /\ generatePositionBetween (Some (pos "VV")) (Some (pos "W")) = Returns (pos "VV")
  /\ comparePositions (pos "VV") (pos "VV") = 0.
Proof. repeat split; vm_compute; congruence. Qed.

(** The same defect on the upper side: between "A" and "A0" the generated
    key is "A0V", which is above the upper neighbour. *)
Lemma midpoint_exceeds_upper_neighbour :
  comparePositions (pos "A") (pos "A0") < 0
  /\ generatePositionBetween (Some (pos "A")) (Some (pos "A0")) = Returns (pos "A0V")
  /\ comparePositions (pos "A0V") (pos "A0") > 0.
Proof. repeat split; vm_compute; congruence. Qed.

(** C3 at a failing input: the key generated before "00" is "0F", which is
    greater than "00"; the same happens for "0", below which no valid key
    exists. *)
Theorem generatePositionBefore_all_minimum :
  isValidPosition (pos "00") = true
  /\ generatePositionBetween None (Some (pos "00")) = Returns (pos "0F")
  /\ generatePositionBefore (pos "00") = Returns (pos "0F")
  /\ comparePositions (pos "0F") (pos "00") > 0
  /\ generatePositionBefore (pos "0") = Returns (pos "0F")
  /\ comparePositions (pos "0F") (pos "0") > 0.
Proof. repeat split; vm_compute; congruence. Qed.

(** The rest of C3 holds: with one side absent the generated key is on the
    right side of the other, provided, for the key before [x], that [x] has
    a symbol above the minimum; and with both sides absent the result is
    the initial key. *)
Lemma generatePositionBetween_one_sided (x : Position) :
  isValidPosition x = true ->
  (exists m, generatePositionBetween (Some x) None = Returns m
             /\ comparePositions x m < 0)
  /\ (existsb (fun c => negb (charToIndex c =? 0)) x = true ->
      exists m, generatePositionBetween None (Some x) = Returns m
                /\ comparePositions m x < 0)
  /\ generatePositionBetween None None = Returns generateInitialPosition.
Proof.
  intros Hx. destruct x as [|c x]; [discriminate|]. repeat split.
  - apply generatePositionAfter_greater.
  - intros Hex. eexists. split; [reflexivity|].
    now apply decrementPosition_smaller.
Qed.

(** The cases of the repository's own test suite for the ordering keys. *)
Example test_before_after :
  generatePositionBefore (pos "V") = Returns (pos "UV")
  /\ generatePositionBefore (pos "1") = Returns (pos "0V")
  /\ generatePositionAfter (pos "V") = Returns (pos "W")
  /\ generatePositionAfter (pos "zzzzzz") = Returns (pos "zzzzzzV").
Proof. repeat split. Qed.

Example test_between :
  generatePositionBetween (Some (pos "A")) (Some (pos "z")) = Returns (pos "Z")
  /\ generatePositionBetween (Some (pos "Va")) (Some (pos "Vb")) = Returns (pos "VaV")
  /\ generatePositionBetween (Some (pos "V0")) (Some (pos "V1")) = Returns (pos "V0V")
  /\ generatePositionBetween (Some (pos "B")) (Some (pos "A"))
       = ThrowsInvalidOrder (pos "B") (pos "A").
Proof. repeat split. Qed.

Example test_compare :
  comparePositions (pos "A") (pos "B") < 0
  /\ comparePositions (pos "Z") (pos "A") > 0
  /\ comparePositions (pos "M") (pos "M") = 0
  /\ comparePositions (pos "A") (pos "AA") < 0
  /\ comparePositions (pos "B") (pos "AA") > 0.
Proof. repeat split. Qed.

Example test_isValidPosition :
  isValidPosition (pos "Mzzzzz") = true
  /\ isValidPosition (pos "ABC123") = true
  /\ isValidPosition [] = false
  /\ isValidPosition (pos "abc!@#") = false
  /\ isValidPosition (pos "abc def") = false.
Proof. repeat split. Qed.

(** One hundred insertions after the last key give increasing keys shorter
    than twenty symbols. *)
Example test_sequential_insertions :
  let keys := pos "V" :: keysAfter 100 (pos "V") in
  length keys = 101%nat
  /\ increasing keys = true
  /\ forallb (fun p => (length p <? 20)%nat) keys = true.
Proof. vm_compute. repeat split. Qed.

(* ===================================================================== *)
(** * Properties of the concurrency controller                            *)
(* ===================================================================== *)

Section VersionCheck.

Import TaskRepository.

Local Arguments Z.add : simpl never.

(** The store refuses the four statements that name the column, and runs
    the others (the statements of [updateTask], with or without a title and
    a description, of [deleteTask] and of [getTaskById]); between double
    quotes the word would be accepted. *)
Example test_storeParses :
  storeParses sqlLastPosition = false
  /\ storeParses sqlInsertTask = false
  /\ storeParses sqlMoveTask = false
  /\ storeParses sqlColumnPositions = false
  /\ forallb storeParses
       ["SELECT * FROM tasks WHERE id = $1 FOR UPDATE";
        "UPDATE tasks SET title = $1, description = $2, version = version + 1 WHERE id = $3 RETURNING *";
        "UPDATE tasks SET title = $1, version = version + 1 WHERE id = $2 RETURNING *";
        "UPDATE tasks SET description = $1, version = version + 1 WHERE id = $2 RETURNING *";
        "UPDATE tasks SET version = version + 1 WHERE id = $1 RETURNING *";
        "SELECT version FROM tasks WHERE id = $1 FOR UPDATE";
        "DELETE FROM tasks WHERE id = $1";
        "SELECT * FROM tasks WHERE id = $1"]%string = true
  /\ storeParses
       ("SELECT position FROM tasks WHERE " +:+ TaskService.dquote +:+ "column"
          +:+ TaskService.dquote +:+ " = $1 ORDER BY position") = true.
Proof. repeat split. Qed.

(** A move that carries the stored version reaches the statement that
    names the column: it is refused and the transaction rolls back. *)
Lemma moveTask_matching_version_refused now table m row :
  table !! move_id m = Some row ->
  row_version row = move_version m ->
  moveTask now table m = Rollback SyntaxError.
Proof.
  intros Hm Hv. unfold moveTask. rewrite Hm.
  apply Z.eqb_eq in Hv. now rewrite Hv.
Qed.

(** An update that carries the stored version is refused when that
    version is the greatest the column holds. *)
Lemma updateTask_at_INTEGER_MAX now table u row :
  table !! update_id u = Some row ->
  row_version row = update_version u ->
  INTEGER_MAX <= row_version row ->
  updateTask now table u = Rollback IntegerOutOfRange.
Proof.
  intros Hu Hv Hmax. unfold updateTask. rewrite Hu.
  apply Z.eqb_eq in Hv. rewrite Hv. simpl.
  destruct (INTEGER_MAX <? row_version row + 1) eqn:E; [reflexivity | lia].
Qed.




End VersionCheck.

Section ServiceConflicts.

Import TaskRepository TaskService.

Variable isUuid : string -> bool.

Local Arguments Z.add : simpl never.

(** C5: a stale update and a stale delete are classified
    [version_mismatch]; a stale move is classified [concurrent_move], in
    particular when the column has changed, and its message names the
    column in which the stored record now is. *)
Theorem stale_mutation_classification
    (now : Z) (table : Table) (row : TaskRow)
    (u : UpdateTaskInput) (m : MoveTaskInput) (d : DeleteTaskInput) :
  parseUpdateTask isUuid u = Some u ->
  parseMoveTask isUuid m = Some m ->
  parseDeleteTask isUuid d = Some d ->
  table !! update_id u = Some row -> row_version row <> update_version u ->
  table !! move_id m = Some row -> row_version row <> move_version m ->
  table !! delete_id d = Some row -> row_version row <> delete_version d ->
  (exists c, snd (updateTask isUuid now table u) = conflicted c
             /\ conflict_type c = version_mismatch)
  /\ (exists c, snd (deleteTask isUuid table d) = conflicted c
                /\ conflict_type c = version_mismatch)
  /\ (exists c, snd (moveTask isUuid now table m) = conflicted c
                /\ conflict_type c = concurrent_move
                /\ conflict_message c =
                     "Task was moved by another user to " +:+ dquote
                       +:+ columnName (row_column row) +:+ dquote
                       +:+ ". Your move was not applied.").
Proof.
  intros Pu Pm Pd Hu Vu Hm Vm Hd Vd.
  apply Z.eqb_neq in Vu, Vm, Vd.
  unfold updateTask, moveTask, deleteTask.
  rewrite Pu, Pm, Pd.
  unfold TaskRepository.updateTask, TaskRepository.moveTask,
    TaskRepository.deleteTask.
  rewrite Hu, Hm, Hd, Vu, Vm, Vd. simpl.
  repeat split; eexists; (split; [reflexivity|]); repeat split.
Qed.

(** The conflict of a stale delete carries no record at all. *)
Lemma stale_delete_conflict_has_no_record
    (table : Table) (row : TaskRow) (d : DeleteTaskInput) :
  parseDeleteTask isUuid d = Some d ->
  table !! delete_id d = Some row -> row_version row <> delete_version d ->
  deleteTask isUuid table d =
    (table, conflicted {| conflict_type := version_mismatch;
                          conflict_currentVersion := None;
                          conflict_currentTask := None;
                          conflict_message := msgDeleteConflict |}).
Proof.
  intros Pd Hd Vd. apply Z.eqb_neq in Vd.
  unfold deleteTask. rewrite Pd.
  unfold TaskRepository.deleteTask. rewrite Hd, Vd. reflexivity.
Qed.

(** C10, as stated, fails for a stored task at version 2147483647: the
    update that carries its id and version and neither a title nor a
    description passes validation, and is answered "Failed to update task";
    the table keeps the record at its version. *)
Lemma bare_update_at_last_version_counterexample :
  sampleLastTable !! sampleId = Some sampleLastRow
  /\ sampleLastBareUpdate
     = {| update_id := sampleId; update_title := None;
          update_description := None;
          update_version := row_version sampleLastRow |}
  /\ parseUpdateTask uuidLength sampleLastBareUpdate
     = Some sampleLastBareUpdate
  /\ updateTask uuidLength 3000 sampleLastTable
       sampleLastBareUpdate
     = (sampleLastTable, failed (FailedTo "Failed to update task"))
  /\ ~ (exists row',
          updateTask uuidLength 3000 sampleLastTable
            sampleLastBareUpdate
          = (<[sampleId := row']> sampleLastTable, succeeded (rowToTask row'))
          /\ row_version row' = row_version sampleLastRow + 1).
Proof.
  assert (H : updateTask uuidLength 3000
                sampleLastTable sampleLastBareUpdate
              = (sampleLastTable, failed (FailedTo "Failed to update task")))
    by reflexivity.
  repeat split; try assumption.
  intros (row' & E & _). rewrite H in E. discriminate.
Qed.

(** C10, amended: for a stored task whose version is below 2147483647, the
    greatest the store holds, an update that passes validation, carries
    the stored version and has neither a title nor a description is
    accepted; the stored row keeps its title, description, column and
    position and its version goes up by one. *)
Theorem bare_update_bumps_version
    (now : Z) (table : Table) (id : string) (row : TaskRow) :
  table !! id = Some row ->
  isUuid id = true ->
  0 < row_version row ->
  row_version row < INTEGER_MAX ->
  exists row',
    updateTask isUuid now table
      {| update_id := id; update_title := None; update_description := None;
         update_version := row_version row |}
    = (<[id := row']> table, succeeded (rowToTask row'))
    /\ row_version row' = row_version row + 1
    /\ row_title row' = row_title row
    /\ row_description row' = row_description row
    /\ row_column row' = row_column row
    /\ row_position row' = row_position row.
Proof.
  intros Hrow Hid Hpos Hmax.
  unfold updateTask, parseUpdateTask. simpl. rewrite Hid. simpl.
  apply Z.ltb_lt in Hpos. rewrite Hpos.
  unfold TaskRepository.updateTask. simpl. rewrite Hrow, Z.eqb_refl. simpl.
  destruct (INTEGER_MAX <? row_version row + 1) eqn:E; [lia|].
  eexists. split; [reflexivity|]. repeat split.
Qed.

End ServiceConflicts.

Lemma stale_mutation_classification_witness :
  exists c,
    snd (TaskService.moveTask uuidLength 3000 sampleTable sampleStaleMove)
      = TaskService.conflicted c
    /\ TaskService.conflict_type c = TaskService.concurrent_move
    /\ TaskService.conflict_message c =
         "Task was moved by another user to " +:+ TaskService.dquote
           +:+ "in_progress" +:+ TaskService.dquote
           +:+ ". Your move was not applied.".
Proof.
  assert (H : sampleTable !! sampleId = Some sampleRow) by reflexivity.
  destruct (stale_mutation_classification uuidLength 3000 sampleTable sampleRow
              sampleStaleUpdate sampleStaleMove sampleStaleDelete
              eq_refl eq_refl eq_refl
              H ltac:(discriminate) H ltac:(discriminate) H ltac:(discriminate))
    as (_ & _ & Hmove).
  exact Hmove.
Defined.

Lemma bare_update_bumps_version_witness :
  exists row',
    TaskService.updateTask uuidLength 3000 sampleTable sampleBareUpdate
    = (<[sampleId := row']> sampleTable,
       TaskService.succeeded (TaskRepository.rowToTask row'))
    /\ TaskRepository.row_version row' = 3
    /\ TaskRepository.row_title row' = "Write report"%string
    /\ TaskRepository.row_description row' = "Quarterly numbers"%string
    /\ TaskRepository.row_column row' = in_progress
    /\ TaskRepository.row_position row' = pos "V".
Proof.
  apply (bare_update_bumps_version uuidLength 3000 sampleTable sampleId sampleRow);
    [reflexivity | reflexivity | reflexivity | reflexivity].
Defined.

(** C6 at a failing input: a delete carrying version 1 against a stored
    record at version 2 is answered with a conflict that holds neither the
    current record nor its version; the table is left as it was. *)
Theorem stale_delete_conflict_lacks_current_record :
  TaskService.parseDeleteTask uuidLength sampleStaleDelete = Some sampleStaleDelete
  /\ sampleTable !! sampleId = Some sampleRow
  /\ TaskService.deleteTask uuidLength sampleTable sampleStaleDelete =
       (sampleTable,
        TaskService.conflicted
          {| TaskService.conflict_type := TaskService.version_mismatch;
             TaskService.conflict_currentVersion := None;
             TaskService.conflict_currentTask := None;
             TaskService.conflict_message := TaskService.msgDeleteConflict |}).
Proof.
  split; [reflexivity|]. split; [reflexivity|].
  apply (stale_delete_conflict_has_no_record uuidLength sampleTable sampleRow);
    [reflexivity | reflexivity | discriminate].
Qed.

(* ===================================================================== *)
(** * Creation                                                            *)
(* ===================================================================== *)

Section StoreOrder.

Import TaskRepository.

(** C7 fails on the code: no create request succeeds.  The first statement
    of the repository's transaction, which reads the last key of the target
    column, names the column [column] without quotes; the store refuses it,
    the transaction rolls back, and for every valid request and every table
    the service answers "Failed to create task" and stores nothing. *)
Theorem createTask_is_refused
    (newId : string) (now : Z) (table : Table)
    (input : TaskService.RawCreateTask) (validated : CreateTaskInput) :
  TaskService.parseCreateTask input = Some validated ->
  lastPositionOfColumn table (create_column validated) = inl SyntaxError
  /\ TaskRepository.createTask newId now table validated = Rollback SyntaxError
  /\ TaskService.createTask newId now table input
     = (table, TaskService.failed (TaskService.FailedTo "Failed to create task"))
  /\ getTaskById (fst (TaskService.createTask newId now table input)) newId
     = getTaskById table newId.
Proof.
  intros Hparse. unfold TaskService.createTask. rewrite Hparse.
  repeat split.
Qed.

Lemma createTask_is_refused_witness :
  TaskService.createTask sampleNewId 3000 sampleTable sampleCreate
    = (sampleTable, TaskService.failed (TaskService.FailedTo "Failed to create task"))
  /\ TaskService.createTask sampleNewId 3000 ∅ sampleCreate
     = (∅, TaskService.failed (TaskService.FailedTo "Failed to create task")).
Proof.
  split.
  - apply (createTask_is_refused sampleNewId 3000 sampleTable sampleCreate
             {| create_title := "Review draft";
                create_description := EmptyString;
                create_column := in_progress |}).
    reflexivity.
  - apply (createTask_is_refused sampleNewId 3000 ∅ sampleCreate
             {| create_title := "Review draft";
                create_description := EmptyString;
                create_column := in_progress |}).
    reflexivity.
Defined.

End StoreOrder.

(* ===================================================================== *)
(** * Properties of the offline queue and of acknowledgements             *)
(* ===================================================================== *)

Section Replay.

Import TaskStore UseWebSocket.

Lemma replayFrom_wire ready i queue s wire :
  exists sent,
    snd (replayFrom ready i queue s wire) = wire ++ sent
    /\ sublist sent (qo_payload <$> queue).
Proof.
  revert i s wire. induction queue as [|operation rest IH]; intros i s wire; simpl.
  - exists []. split; [now rewrite app_nil_r | constructor].
  - destruct (ready i).
    + destruct (IH (S i) (removeFromQueue (qo_id operation) s)
                  (wire ++ [qo_payload operation])) as (sent & E & Hsub).
      exists (qo_payload operation :: sent). split.
      * rewrite E, <- app_assoc. reflexivity.
      * now constructor.
    + destruct (IH (S i) s wire) as (sent & E & Hsub).
      exists sent. split; [exact E | now constructor].
Qed.

Lemma replayFrom_open i queue s wire :
  snd (replayFrom (fun _ => true) i queue s wire) = wire ++ (qo_payload <$> queue).
Proof.
  revert i s wire. induction queue as [|operation rest IH]; intros i s wire; simpl.
  - now rewrite app_nil_r.
  - rewrite IH, <- app_assoc. reflexivity.
Qed.

(** C8: a command submitted while the socket is not open is appended to the
    end of the queue with the full message as its payload; on reconnect the
    frames written are stored payloads, unmodified and in queue order, and
    they are all of them when the socket stays open. *)
Theorem replay_preserves_order_and_payload
    (s : TaskState) (ready : nat -> bool)
    (messageId queueId : string) (now : Z) (type : string) (payload : ClientPayload) :
  (exists fullMessage,
     sendMessage false messageId queueId now type payload s
       = (set_offlineQueue
            (offlineQueue s ++
               [{| qo_id := queueId; qo_type := type; qo_payload := fullMessage;
                   qo_timestamp := now; qo_retryCount := 0 |}]) s,
          [], messageId)
     /\ msg_payload fullMessage = payload
     /\ msg_messageId fullMessage = messageId)
  /\ sublist (snd (onopen ready s)) (qo_payload <$> offlineQueue s)
  /\ snd (onopen (fun _ => true) s) = qo_payload <$> offlineQueue s.
Proof.
  split; [|split].
  - eexists. split; [reflexivity|]. split; reflexivity.
  - unfold onopen.
    destruct (replayFrom_wire ready 0
                (offlineQueue (setConnectionStatus connected s))
                (setConnectionStatus connected s) []) as (sent & E & Hsub).
    rewrite E. exact Hsub.
  - unfold onopen. rewrite replayFrom_open. reflexivity.
Qed.

End Replay.

Section Acknowledgement.

Import TaskStore UseWebSocket.

Variable localeCompare : Position -> Position -> Z.

(** The comparator never puts each of two keys after the other. *)
Hypothesis localeCompare_asym :
  forall a b, 0 < localeCompare a b -> localeCompare b a <= 0.

Local Arguments Z.sub : simpl never.

Lemma Column_eqb_sym a b : Column_eqb a b = Column_eqb b a.
Proof. destruct a, b; reflexivity. Qed.

Lemma compareTasks_asym a b :
  0 < compareTasks localeCompare a b -> compareTasks localeCompare b a <= 0.
Proof.
  unfold compareTasks. rewrite (Column_eqb_sym (task_column b)).
  destruct (Column_eqb (task_column a) (task_column b)); simpl.
  - apply localeCompare_asym.
  - lia.
Qed.

Section Sorting.

Context {A : Type} (cmp : A -> A -> Z).
Hypothesis cmp_asym : forall a b, 0 < cmp a b -> cmp b a <= 0.

Let ordered (a b : A) : Prop := cmp a b <= 0.

Lemma insertSorted_HdRel x y l :
  ordered y x -> HdRel ordered y l -> HdRel ordered y (insertSorted cmp x l).
Proof.
  intros Hyx Hl. destruct l as [|z l]; simpl; [now constructor|].
  destruct (cmp x z >? 0); [|now constructor].
  inversion Hl; subst. now constructor.
Qed.

Lemma insertSorted_Sorted x l :
  Sorted ordered l -> Sorted ordered (insertSorted cmp x l).
Proof.
  induction 1 as [|y l Hl IH Hy]; simpl; [repeat constructor|].
  destruct (cmp x y >? 0) eqn:E.
  - constructor; [exact IH|].
    apply insertSorted_HdRel; [|exact Hy].
    apply cmp_asym. lia.
  - constructor; [now constructor|]. constructor. unfold ordered. lia.
Qed.

Lemma jsSort_Sorted l : Sorted ordered (jsSort cmp l).
Proof.
  induction l as [|x l IH]; simpl; [constructor|].
  now apply insertSorted_Sorted.
Qed.

(** A stable sort leaves a sorted array as it is. *)
Lemma jsSort_of_Sorted l : Sorted ordered l -> jsSort cmp l = l.
Proof.
  induction 1 as [|x l Hl IH Hx]; simpl; [reflexivity|].
  fold (jsSort cmp l). rewrite IH.
  destruct Hx as [|y l Hxy]; simpl; [reflexivity|].
  unfold ordered in Hxy. destruct (cmp x y >? 0) eqn:E; [lia | reflexivity].
Qed.

Lemma jsSort_idempotent l : jsSort cmp (jsSort cmp l) = jsSort cmp l.
Proof. apply jsSort_of_Sorted, jsSort_Sorted. Qed.

Lemma elem_of_insertSorted x y l :
  y ∈ insertSorted cmp x l <-> y = x \/ y ∈ l.
Proof.
  induction l as [|z l IH]; simpl.
  - rewrite list_elem_of_singleton, elem_of_nil. tauto.
  - destruct (cmp x z >? 0); rewrite !elem_of_cons; [rewrite IH|]; tauto.
Qed.

Lemma elem_of_jsSort y l : y ∈ jsSort cmp l <-> y ∈ l.
Proof.
  induction l as [|x l IH]; simpl; [reflexivity|].
  fold (jsSort cmp l). rewrite elem_of_insertSorted, elem_of_cons, IH. tauto.
Qed.

End Sorting.

Lemma fmap_fixed {B} (f : B -> B) (l : list B) :
  (forall x, x ∈ l -> f x = x) -> f <$> l = l.
Proof.
  induction l as [|x l IH]; intros Hfix; [reflexivity|].
  rewrite fmap_cons, Hfix by now left.
  f_equal. apply IH. intros y Hy. apply Hfix. now right.
Qed.

Lemma sortTasksByPosition_fixed (replace : Task -> Task) (ts : list Task) :
  (forall t, t ∈ ts -> replace t = t) ->
  sortTasksByPosition localeCompare
    (replace <$> sortTasksByPosition localeCompare ts)
  = sortTasksByPosition localeCompare ts.
Proof.
  intros Hfix. unfold sortTasksByPosition.
  rewrite (fmap_fixed replace).
  - apply jsSort_idempotent, compareTasks_asym.
  - intros t Ht. apply Hfix. now apply elem_of_jsSort in Ht.
Qed.

Lemma find_In_Some {B} (f : B -> bool) (l : list B) (x : B) :
  x ∈ l -> f x = true -> exists y, find f l = Some y.
Proof.
  intros Hin Hf. destruct (find f l) as [y|] eqn:E; [now exists y|].
  apply list_elem_of_In in Hin. rewrite (find_none f l E x Hin) in Hf. discriminate.
Qed.

(** C9: handling the same [sync:ack] a second time changes nothing: the
    state, with its task list and its pending-operation map, is the one
    reached after the first handling. *)
Theorem sync_ack_idempotent (s : TaskState) (messageId : string) (task : option Task) :
  let once := handleMessage localeCompare (SyncAck messageId task) s in
  let twice := handleMessage localeCompare (SyncAck messageId task) once in
  twice = once
  /\ tasks twice = tasks once
  /\ pendingOperations twice = pendingOperations once
  /\ pendingOperations once = delete messageId (pendingOperations s).
Proof.
  intros once twice.
  assert (Hpend : pendingOperations once = delete messageId (pendingOperations s)).
  { unfold once. simpl. destruct task as [t|]; [|reflexivity].
    unfold getTaskById. simpl. destruct (find _ (tasks s)); reflexivity. }
  assert (Heq : twice = once); [|rewrite Heq; repeat split; exact Hpend].
  unfold twice, once. destruct task as [t|]; simpl.
  2:{ unfold resolvePendingOperation, set_pendingOperations. simpl.
      now rewrite delete_delete_eq. }
  set (replace := fun task : Task =>
         if String.eqb (task_id task) (task_id t) then t else task).
  assert (Hrt : replace t = t) by (unfold replace; now rewrite String.eqb_refl).
  unfold getTaskById. simpl.
  destruct (find (fun task => String.eqb (task_id task) (task_id t)) (tasks s))
    as [existing|] eqn:Hfind.
  - apply find_some in Hfind as [Hin Hid]. simpl. fold replace.
    destruct (find_In_Some (fun task => String.eqb (task_id task) (task_id t))
                (sortTasksByPosition localeCompare (replace <$> tasks s)) t)
      as [y ->].
    { apply elem_of_jsSort, list_elem_of_fmap. exists existing.
      split; [|now apply list_elem_of_In].
      unfold replace. now rewrite Hid. }
    { apply String.eqb_refl. }
    unfold updateTask, set_tasks, resolvePendingOperation, set_pendingOperations.
    simpl. fold replace. rewrite delete_delete_eq. f_equal.
    apply sortTasksByPosition_fixed.
    intros x Hx. apply list_elem_of_fmap in Hx as (e & -> & _).
    unfold replace. destruct (String.eqb (task_id e) (task_id t)) eqn:E.
    + now rewrite String.eqb_refl.
    + now rewrite E.
  - simpl.
    destruct (find_In_Some (fun task => String.eqb (task_id task) (task_id t))
                (sortTasksByPosition localeCompare (tasks s ++ [t])) t)
      as [y ->].
    { apply elem_of_jsSort, elem_of_app. right. now left. }
    { apply String.eqb_refl. }
    unfold updateTask, addTask, set_tasks, resolvePendingOperation,
      set_pendingOperations.
    simpl. fold replace. rewrite delete_delete_eq. f_equal.
    apply sortTasksByPosition_fixed.
    intros x Hx. apply elem_of_app in Hx as [Hx | Hx].
    + unfold replace. apply list_elem_of_In in Hx.
      now rewrite (find_none _ _ Hfind x Hx).
    + apply list_elem_of_singleton in Hx. now subst.
Qed.

End Acknowledgement.

Lemma sync_ack_idempotent_witness :
  UseWebSocket.handleMessage comparePositions
    (UseWebSocket.SyncAck "message-1" (Some sampleAckTask))
    (UseWebSocket.handleMessage comparePositions
       (UseWebSocket.SyncAck "message-1" (Some sampleAckTask)) sampleClientState)
  = UseWebSocket.handleMessage comparePositions
      (UseWebSocket.SyncAck "message-1" (Some sampleAckTask)) sampleClientState.
Proof.
  apply (sync_ack_idempotent comparePositions).
  intros a b Hab. rewrite comparePositions_opp. lia.
Defined.

(* ===================================================================== *)
(** * Further properties of the ordering keys                             *)
(* ===================================================================== *)

Section KeyShape.

Local Arguments Z.eqb : simpl never.
Local Arguments Z.gtb : simpl never.
Local Arguments Z.add : simpl never.
Local Arguments Z.sub : simpl never.
Local Arguments Z.div : simpl never.
Local Arguments charToIndex : simpl never.
Local Arguments indexToChar : simpl never.

Let inAlphabet (c : ascii) : Prop := includes c BASE_CHARS = true.

Lemma validChars_Forall p : validChars p = true <-> Forall inAlphabet p.
Proof.
  unfold validChars. rewrite forallb_forall, Forall_forall.
  split; intros H c Hc; apply H; now apply list_elem_of_In.
Qed.

Lemma isValidPosition_iff p :
  isValidPosition p = true <-> p <> [] /\ Forall inAlphabet p.
Proof.
  rewrite <- validChars_Forall. destruct p as [|c p]; simpl.
  - split; [discriminate | intros [H _]; now destruct H].
  - split; [intros H; split; [discriminate | exact H] | intros [_ H]; exact H].
Qed.

Lemma indexToChar_inAlphabet k : inAlphabet (indexToChar k).
Proof.
  unfold inAlphabet, indexToChar.
  assert (Hall : forallb (fun n => includes (charAt BASE_CHARS n) BASE_CHARS)
                   (seq 0 62) = true) by (vm_compute; reflexivity).
  rewrite forallb_forall in Hall. apply Hall, in_seq.
  rewrite BASE_value. lia.
Qed.

Lemma MID_CHAR_inAlphabet : inAlphabet MID_CHAR.
Proof. reflexivity. Qed.

Lemma charAt_inAlphabet p i : Forall inAlphabet p -> inAlphabet (charAt p i).
Proof.
  intros Hp. unfold charAt. rewrite nth_lookup.
  destruct (p !! i) as [c|] eqn:E; simpl; [|reflexivity].
  rewrite Forall_forall in Hp. apply Hp. now apply list_elem_of_lookup_2 in E.
Qed.

Lemma incrementPosition_valid (p : Position) :
  validChars p = true -> isValidPosition (incrementPosition p) = true.
Proof.
  intros Hp. apply validChars_Forall in Hp. apply isValidPosition_iff.
  destruct (scanDown_spec (fun c => charToIndex c =? BASE - 1) p (length p))
    as [[Hscan Hall] | (i & Hscan & Hi & Hnot & _)].
  - unfold incrementPosition. rewrite Hscan. simpl.
    split; [now destruct p|].
    apply Forall_app. split; [exact Hp|]. repeat constructor.
  - rewrite (incrementPosition_found p i Hscan Hi).
    split; [now destruct (take i p)|].
    apply Forall_app. split; [now apply Forall_take|].
    repeat constructor. apply indexToChar_inAlphabet.
Qed.

(** X1: the key after a key over the alphabet is a valid key, at most one
    symbol longer, and no longer at all when some symbol is below the
    maximum. *)
Theorem incrementPosition_valid_bounded (p : Position) :
  validChars p = true ->
  isValidPosition (incrementPosition p) = true
  /\ (length (incrementPosition p) <= S (length p))%nat
  /\ (existsb (fun c => negb (charToIndex c =? BASE - 1)) p = true ->
      (length (incrementPosition p) <= length p)%nat).
Proof.
  intros Hp. apply validChars_Forall in Hp.
  destruct (scanDown_spec (fun c => charToIndex c =? BASE - 1) p (length p))
    as [[Hscan Hall] | (i & Hscan & Hi & Hnot & _)].
  - unfold incrementPosition. rewrite Hscan. simpl. repeat split.
    + apply isValidPosition_iff. split; [now destruct p|].
      apply Forall_app. split; [exact Hp|]. repeat constructor.
    + rewrite length_app. simpl. lia.
    + intros Hex. exfalso. apply existsb_exists in Hex as (c & Hc & Hnz).
      apply (In_nth _ _ "0"%char) in Hc as (j & Hj & Hcj).
      specialize (Hall j Hj). unfold charAt in Hall. rewrite Hcj in Hall.
      rewrite Hall in Hnz. discriminate.
  - rewrite (incrementPosition_found p i Hscan Hi).
    rewrite length_app, length_take. simpl. repeat split; try lia.
    apply isValidPosition_iff. split; [now destruct (take i p)|].
    apply Forall_app. split; [now apply Forall_take|].
    repeat constructor. apply indexToChar_inAlphabet.
Qed.

(** X2: the key before a valid key is a valid key, at most one symbol
    longer. *)
Theorem decrementPosition_valid_bounded (p : Position) :
  isValidPosition p = true ->
  isValidPosition (decrementPosition p) = true
  /\ (length (decrementPosition p) <= S (length p))%nat.
Proof.
  intros Hp. apply isValidPosition_iff in Hp as [Hne Hp].
  destruct (scanDown_spec (fun c => charToIndex c =? 0) p (length p))
    as [[Hscan _] | (i & Hscan & Hi & _)].
  - unfold decrementPosition. rewrite Hscan. simpl. split.
    + reflexivity.
    + destruct p; [congruence | simpl; lia].
  - rewrite (decrementPosition_found p i Hscan Hi). split.
    + apply isValidPosition_iff. split; [now destruct (take i p)|].
      apply Forall_app. split; [now apply Forall_take|].
      constructor; [apply indexToChar_inAlphabet|].
      apply Forall_app. split; [|repeat constructor].
      apply Forall_replicate, indexToChar_inAlphabet.
    + rewrite length_app, length_take. simpl.
      rewrite length_app, length_replicate. simpl. lia.
Qed.

Lemma midpointFrom_shape pb pa i n result :
  Forall inAlphabet pb -> Forall inAlphabet result ->
  Forall inAlphabet (midpointFrom pb pa i n result)
  /\ midpointFrom pb pa i n result <> []
  /\ (length (midpointFrom pb pa i n result) <= length result + n + 1)%nat.
Proof.
  intros Hpb. revert i result. induction n as [|n IH]; intros i result Hres; simpl.
  - repeat split.
    + apply Forall_app. split; [exact Hres | repeat constructor].
    + now destruct result.
    + rewrite length_app. simpl. lia.
  - destruct (charToIndex (charAt pb i) =? charToIndex (charAt pa i)).
    + destruct (IH (S i) (result ++ [charAt pb i])) as (H1 & H2 & H3).
      { apply Forall_app. split; [exact Hres|].
        repeat constructor. now apply charAt_inAlphabet. }
      repeat split; [exact H1 | exact H2 |].
      rewrite length_app in H3. simpl in H3. lia.
    + destruct (_ >? _); repeat split.
      * apply Forall_app. split; [exact Hres|].
        repeat constructor. apply indexToChar_inAlphabet.
      * now destruct result.
      * rewrite length_app. simpl. lia.
      * apply Forall_app. split; [|repeat constructor].
        apply Forall_app. split; [exact Hres|].
        repeat constructor. now apply charAt_inAlphabet.
      * now destruct result.
      * rewrite !length_app. simpl. lia.
Qed.

Lemma midpoint_throws_or_valid (before after : Position) :
  validChars before = true ->
  (comparePositions before after >= 0 ->
   midpoint before after = ThrowsInvalidOrder before after)
  /\ (comparePositions before after < 0 ->
      exists m, midpoint before after = Returns m /\ isValidPosition m = true).
Proof.
  intros Hb. apply validChars_Forall in Hb. unfold midpoint. split; intros Hcmp.
  - destruct (comparePositions before after >=? 0) eqn:E; [reflexivity | lia].
  - destruct (comparePositions before after >=? 0) eqn:E; [lia|].
    eexists. split; [reflexivity|].
    destruct (midpointFrom_shape
                (padEnd before (Nat.max (length before) (length after))
                   (charAt BASE_CHARS 0))
                (padEnd after (Nat.max (length before) (length after))
                   (charAt BASE_CHARS 0))
                0 (Nat.max (length before) (length after)) [])
      as (H1 & H2 & H3).
    { unfold padEnd. apply Forall_app. split; [exact Hb|].
      now apply Forall_replicate. }
    { constructor. }
    now apply isValidPosition_iff.
Qed.

(** X3: [midpoint] throws exactly when its first argument does not compare
    below the second; otherwise, on keys over the alphabet, it returns a
    valid key at most one symbol longer than the longer argument. *)
Theorem midpoint_outcome (before after : Position) :
  validChars before = true ->
  (comparePositions before after >= 0 ->
   midpoint before after = ThrowsInvalidOrder before after)
  /\ (comparePositions before after < 0 ->
      exists m, midpoint before after = Returns m
                /\ isValidPosition m = true
                /\ (length m <= S (Nat.max (length before) (length after)))%nat).
Proof.
  intros Hb. apply validChars_Forall in Hb. unfold midpoint. split; intros Hcmp.
  - destruct (comparePositions before after >=? 0) eqn:E; [reflexivity | lia].
  - destruct (comparePositions before after >=? 0) eqn:E; [lia|].
    eexists. split; [reflexivity|].
    destruct (midpointFrom_shape
                (padEnd before (Nat.max (length before) (length after))
                   (charAt BASE_CHARS 0))
                (padEnd after (Nat.max (length before) (length after))
                   (charAt BASE_CHARS 0))
                0 (Nat.max (length before) (length after)) [])
      as (H1 & H2 & H3).
    { unfold padEnd. apply Forall_app. split; [exact Hb|].
      now apply Forall_replicate. }
    { constructor. }
    split; [now apply isValidPosition_iff|]. simpl in H3. lia.
Qed.

End KeyShape.

Lemma incrementPosition_valid_bounded_witness :
  isValidPosition (incrementPosition (pos "Vz")) = true
  /\ (length (incrementPosition (pos "Vz")) <= S (length (pos "Vz")))%nat
  /\ (existsb (fun c => negb (charToIndex c =? BASE - 1)) (pos "Vz") = true ->
      (length (incrementPosition (pos "Vz")) <= length (pos "Vz"))%nat).
Proof. apply (incrementPosition_valid_bounded (pos "Vz")). reflexivity. Defined.

Lemma decrementPosition_valid_bounded_witness :
  isValidPosition (decrementPosition (pos "A0")) = true
  /\ (length (decrementPosition (pos "A0")) <= S (length (pos "A0")))%nat.
Proof. apply (decrementPosition_valid_bounded (pos "A0")). reflexivity. Defined.

Lemma midpoint_outcome_witness :
  (comparePositions (pos "A") (pos "z") >= 0 ->
   midpoint (pos "A") (pos "z") = ThrowsInvalidOrder (pos "A") (pos "z"))
  /\ (comparePositions (pos "A") (pos "z") < 0 ->
      exists m, midpoint (pos "A") (pos "z") = Returns m
                /\ isValidPosition m = true
                /\ (length m <= S (Nat.max (length (pos "A")) (length (pos "z"))))%nat).
Proof. apply (midpoint_outcome (pos "A") (pos "z")). reflexivity. Defined.

Section BatchKeys.

Local Arguments Z.eqb : simpl never.
Local Arguments comparePositions : simpl never.
Local Arguments incrementPosition : simpl never.

Lemma increasing_cons a b rest :
  increasing (a :: b :: rest) = (comparePositions a b <? 0) && increasing (b :: rest).
Proof. reflexivity. Qed.

Lemma generatePositionsFrom_after n c acc :
  validChars c = true -> c <> [] ->
  exists l,
    generatePositionsFrom n (Some c) None acc = Returns (acc ++ l)
    /\ length l = n
    /\ increasing (c :: l) = true
    /\ Forall (fun p => isValidPosition p = true) l.
Proof.
  revert c acc. induction n as [|n IH]; intros c acc Hc Hne.
  - exists []. rewrite app_nil_r. repeat split. constructor.
  - destruct c as [|x c]; [congruence|].
    assert (Hg : generatePositionBetween (Some (x :: c)) None
                 = Returns (incrementPosition (x :: c))) by reflexivity.
    pose proof (incrementPosition_valid (x :: c) Hc) as Hv.
    destruct (IH (incrementPosition (x :: c)) (acc ++ [incrementPosition (x :: c)]))
      as (l & E & Hlen & Hinc & Hall).
    { now apply isValidPosition_forallb. }
    { intros E. rewrite E in Hv. discriminate. }
    exists (incrementPosition (x :: c) :: l). repeat split.
    + cbn [generatePositionsFrom]. rewrite Hg, E, <- app_assoc. reflexivity.
    + simpl. now rewrite Hlen.
    + rewrite increasing_cons, Hinc, andb_true_r.
      apply Z.ltb_lt, incrementPosition_greater.
    + now constructor.
Qed.

(** X4: with no upper neighbour, [generatePositions] never throws and
    returns [count] valid keys (none for a negative [count]), each below
    the next, and all above the lower neighbour when there is one. *)
Theorem generatePositions_open_ended (count : Z) (before : option Position) :
  validChars (default [] before) = true ->
  exists l,
    generatePositions count before None = Returns l
    /\ length l = Z.to_nat count
    /\ increasing l = true
    /\ (falsy before = false -> increasing (default [] before :: l) = true)
    /\ Forall (fun p => isValidPosition p = true) l.
Proof.
  intros Hb. unfold generatePositions.
  destruct (count =? 0) eqn:E0.
  { apply Z.eqb_eq in E0. subst. exists []. repeat split. constructor. }
  assert (Hstep : forall n,
    exists l, generatePositionsFrom n before None [] = Returns l
      /\ length l = n /\ increasing l = true
      /\ (falsy before = false -> increasing (default [] before :: l) = true)
      /\ Forall (fun p => isValidPosition p = true) l).
  { intros n. destruct (falsy before) eqn:Ef.
    - destruct n as [|n].
      + exists []. repeat split; try discriminate. constructor.
      + assert (Hgen : generatePositionBetween before None
                       = Returns generateInitialPosition).
        { unfold generatePositionBetween. now rewrite Ef. }
        cbn [generatePositionsFrom]. rewrite Hgen.
        destruct (generatePositionsFrom_after n generateInitialPosition
                    ([] ++ [generateInitialPosition]) eq_refl)
          as (l & E & Hlen & Hinc & Hall); [discriminate|].
        exists (generateInitialPosition :: l). repeat split.
        * exact E.
        * simpl. now rewrite Hlen.
        * exact Hinc.
        * discriminate.
        * now constructor.
    - destruct before as [[|x b]|]; try discriminate.
      destruct (generatePositionsFrom_after n (x :: b) [] Hb)
        as (l & E & Hlen & Hinc & Hall); [discriminate|].
      exists l. split; [exact E|]. split; [exact Hlen|].
      split; [|split; [intros _; exact Hinc | exact Hall]].
      destruct l as [|y l]; [reflexivity|].
      rewrite increasing_cons in Hinc. now apply andb_true_iff in Hinc as [_ Hinc]. }
  destruct (count =? 1) eqn:E1.
  - apply Z.eqb_eq in E1. subst.
    destruct (Hstep 1%nat) as (l & E & Hrest).
    cbn [generatePositionsFrom] in E.
    destruct (generatePositionBetween before None) as [p|] eqn:Eg; [|discriminate].
    injection E as <-. exists [p]. split; [reflexivity | exact Hrest].
  - apply Hstep.
Qed.

End BatchKeys.

Lemma generatePositions_open_ended_witness :
  exists l,
    generatePositions 3 (Some (pos "y")) None = Returns l
    /\ length l = 3%nat
    /\ increasing l = true
    /\ (falsy (Some (pos "y")) = false -> increasing (pos "y" :: l) = true)
    /\ Forall (fun p => isValidPosition p = true) l.
Proof. apply (generatePositions_open_ended 3 (Some (pos "y"))). reflexivity. Defined.

Lemma midpoint_gap_between_witness :
  midpoint (pos "A") (pos "Az") = Returns (pos "AU")
  /\ comparePositions (pos "A") (pos "AU") < 0
  /\ comparePositions (pos "AU") (pos "Az") < 0.
Proof.
  apply (midpoint_gap_between (pos "A") (pos "Az") (pos "A")
           "0"%char [] "z"%char []);
    [reflexivity | reflexivity | reflexivity | reflexivity].
Defined.

Lemma midpoint_adjacent_shape_witness :
  midpoint (pos "Va") (pos "Vb") = Returns (pos "VaV").
Proof.
  apply (midpoint_adjacent_shape (pos "Va") (pos "Vb") (pos "V")
           "a"%char [] "b"%char []);
    [reflexivity | reflexivity | reflexivity | reflexivity].
Defined.

Lemma generatePositionBetween_one_sided_witness :
  (exists m, generatePositionBetween (Some (pos "Vz")) None = Returns m
             /\ comparePositions (pos "Vz") m < 0)
  /\ (existsb (fun c => negb (charToIndex c =? 0)) (pos "Vz") = true ->
      exists m, generatePositionBetween None (Some (pos "Vz")) = Returns m
                /\ comparePositions m (pos "Vz") < 0)
  /\ generatePositionBetween None None = Returns generateInitialPosition.
Proof. apply (generatePositionBetween_one_sided (pos "Vz")). reflexivity. Defined.

(* ===================================================================== *)
(** * Further properties of the concurrency controller                    *)
(* ===================================================================== *)

Section ServiceInvariants.

Import TaskRepository TaskService.

Variable isUuid : string -> bool.

Local Arguments Z.add : simpl never.
Local Arguments Z.eqb : simpl never.
Local Arguments Z.ltb : simpl never.

Lemma parseUpdateTask_Some u v : parseUpdateTask isUuid u = Some v -> v = u.
Proof. unfold parseUpdateTask. destruct (_ && _); congruence. Qed.

Lemma parseMoveTask_Some m v : parseMoveTask isUuid m = Some v -> v = m.
Proof. unfold parseMoveTask. destruct (_ && _); congruence. Qed.

Lemma parseDeleteTask_Some d v : parseDeleteTask isUuid d = Some v -> v = d.
Proof. unfold parseDeleteTask. destruct (_ && _); congruence. Qed.

Lemma createTask_cases newId now table input :
  exists e, createTask newId now table input = (table, failed e).
Proof.
  unfold createTask. destruct (parseCreateTask input) as [validated|]; eauto.
Qed.

Lemma updateTask_cases now table u :
  (exists e, updateTask isUuid now table u = (table, failed e))
  \/ (exists c, updateTask isUuid now table u = (table, conflicted c))
  \/ (exists row row',
        table !! update_id u = Some row
        /\ updateTask isUuid now table u
            = (<[update_id u := row']> table, succeeded (rowToTask row'))
        /\ row_id row' = row_id row
        /\ row_version row' = row_version row + 1
        /\ row_created_at row' = row_created_at row).
Proof.
  unfold updateTask. destruct (parseUpdateTask isUuid u) as [v|] eqn:Hp; [|left; eauto].
  apply parseUpdateTask_Some in Hp as ->. unfold TaskRepository.updateTask.
  destruct (table !! update_id u) as [row|] eqn:Hrow; simpl; [|left; eauto].
  destruct (row_version row =? update_version u); simpl.
  - destruct (INTEGER_MAX <? row_version row + 1); [left; eauto|].
    right. right. eexists _, _. split; [reflexivity|]. split; [reflexivity|].
    repeat split.
  - right. left. eauto.
Qed.

Lemma moveTask_cases now table m :
  (exists e, moveTask isUuid now table m = (table, failed e))
  \/ (exists c, moveTask isUuid now table m = (table, conflicted c)).
Proof.
  unfold moveTask. destruct (parseMoveTask isUuid m) as [v|] eqn:Hp; [|left; eauto].
  apply parseMoveTask_Some in Hp as ->. unfold TaskRepository.moveTask.
  destruct (table !! move_id m) as [row|] eqn:Hrow; simpl; [|left; eauto].
  destruct (row_version row =? move_version m); simpl.
  - left. eauto.
  - right. eauto.
Qed.

Lemma deleteTask_cases table d :
  (exists e, deleteTask isUuid table d = (table, failed e))
  \/ (exists c, deleteTask isUuid table d = (table, conflicted c))
  \/ (exists row,
        table !! delete_id d = Some row
        /\ deleteTask isUuid table d
            = (delete (delete_id d) table, succeeded (delete_id d))).
Proof.
  unfold deleteTask. destruct (parseDeleteTask isUuid d) as [v|] eqn:Hp; [|left; eauto].
  apply parseDeleteTask_Some in Hp as ->. unfold TaskRepository.deleteTask.
  destruct (table !! delete_id d) as [row|] eqn:Hrow; simpl; [|left; eauto].
  destruct (row_version row =? delete_version d); simpl.
  - right. right. eauto.
  - right. left. eauto.
Qed.

(** X5: an operation that does not report success leaves the table exactly
    as it was: validation errors, missing records, conflicts and rolled
    back transactions write nothing. *)
Theorem unsuccessful_operations_write_nothing
    (newId : string) (now : Z) (table : Table)
    (c : RawCreateTask) (u : UpdateTaskInput) (m : MoveTaskInput)
    (d : DeleteTaskInput) :
  (success (snd (createTask newId now table c)) = false ->
   fst (createTask newId now table c) = table)
  /\ (success (snd (updateTask isUuid now table u)) = false ->
      fst (updateTask isUuid now table u) = table)
  /\ (success (snd (moveTask isUuid now table m)) = false ->
      fst (moveTask isUuid now table m) = table)
  /\ (success (snd (deleteTask isUuid table d)) = false ->
      fst (deleteTask isUuid table d) = table).
Proof.
  repeat split.
  - destruct (createTask_cases newId now table c) as [e ->]. reflexivity.
  - destruct (updateTask_cases now table u)
      as [[e ->] | [[k ->] | (row & row' & _ & -> & _)]]; simpl;
      [reflexivity | reflexivity | discriminate].
  - destruct (moveTask_cases now table m) as [[e ->] | [k ->]]; reflexivity.
  - destruct (deleteTask_cases table d)
      as [[e ->] | [[k ->] | (row & _ & ->)]]; simpl;
      [reflexivity | reflexivity | discriminate].
Qed.

(** X6: an operation reads and writes one row only: every row stored under
    another identifier is the same before and after. *)
Theorem operations_touch_only_their_row
    (newId : string) (now : Z) (table : Table)
    (c : RawCreateTask) (u : UpdateTaskInput) (m : MoveTaskInput)
    (d : DeleteTaskInput) (other : string) :
  (other <> newId -> fst (createTask newId now table c) !! other = table !! other)
  /\ (other <> update_id u ->
      fst (updateTask isUuid now table u) !! other = table !! other)
  /\ (other <> move_id m ->
      fst (moveTask isUuid now table m) !! other = table !! other)
  /\ (other <> delete_id d ->
      fst (deleteTask isUuid table d) !! other = table !! other).
Proof.
  repeat split; intros Hne.
  - destruct (createTask_cases newId now table c) as [e ->]. reflexivity.
  - destruct (updateTask_cases now table u)
      as [[e ->] | [[k ->] | (row & row' & _ & -> & _)]]; simpl; try reflexivity.
    now rewrite lookup_insert_ne.
  - destruct (moveTask_cases now table m) as [[e ->] | [k ->]]; reflexivity.
  - destruct (deleteTask_cases table d)
      as [[e ->] | [[k ->] | (row & _ & ->)]]; simpl; try reflexivity.
    now rewrite lookup_delete_ne.
Qed.

Lemma insert_keeps_wellFormed (table : Table) id row :
  wellFormed table -> row_id row = id -> 0 < row_version row ->
  wellFormed (<[id := row]> table).
Proof.
  intros Hwf Hid Hv k r Hk. apply lookup_insert_Some in Hk as [[<- <-] | [_ Hk]].
  - now split.
  - now apply Hwf.
Qed.

Lemma insert_versions_grow (table : Table) id row row' :
  table !! id = Some row ->
  row_version row' = row_version row + 1 ->
  row_created_at row' = row_created_at row ->
  forall k r0 r1, table !! k = Some r0 -> <[id := row']> table !! k = Some r1 ->
    row_version r0 <= row_version r1 <= row_version r0 + 1
    /\ row_created_at r1 = row_created_at r0.
Proof.
  intros Hrow Hv Hc k r0 r1 H0 H1.
  apply lookup_insert_Some in H1 as [[<- <-] | [_ H1]].
  - rewrite Hrow in H0. injection H0 as <-. rewrite Hv, Hc. split; [lia | reflexivity].
  - rewrite H0 in H1. injection H1 as <-. split; [lia | reflexivity].
Qed.

(** X7: the operations keep every row filed under its own identifier with a
    positive version, and the version of a record that is kept never goes
    down and goes up by at most one per operation. *)
Theorem operations_keep_rows_well_formed
    (newId : string) (now : Z) (table : Table)
    (c : RawCreateTask) (u : UpdateTaskInput) (m : MoveTaskInput)
    (d : DeleteTaskInput) :
  wellFormed table ->
  let grows (table' : Table) :=
    wellFormed table'
    /\ forall k r0 r1, table !! k = Some r0 -> table' !! k = Some r1 ->
         row_version r0 <= row_version r1 <= row_version r0 + 1
         /\ row_created_at r1 = row_created_at r0 in
  grows (fst (createTask newId now table c))
  /\ grows (fst (updateTask isUuid now table u))
  /\ grows (fst (moveTask isUuid now table m))
  /\ grows (fst (deleteTask isUuid table d)).
Proof.
  intros Hwf grows.
  assert (Hsame : grows table).
  { split; [exact Hwf|]. intros k r0 r1 H0 H1. rewrite H0 in H1.
    injection H1 as <-. split; [lia | reflexivity]. }
  split; [|split; [|split]].
  - destruct (createTask_cases newId now table c) as [e ->]. exact Hsame.
  - destruct (updateTask_cases now table u)
      as [[e ->] | [[k ->] | (row & row' & Hrow & -> & Hid & Hv & Hc)]]; simpl;
      try exact Hsame.
    destruct (Hwf _ _ Hrow) as [Hkey Hpos]. split.
    + apply insert_keeps_wellFormed; [exact Hwf | congruence | lia].
    + now apply insert_versions_grow with (row := row).
  - destruct (moveTask_cases now table m) as [[e ->] | [k ->]]; exact Hsame.
  - destruct (deleteTask_cases table d)
      as [[e ->] | [[k ->] | (row & Hrow & ->)]]; simpl; try exact Hsame.
    split.
    + intros k r Hk. apply lookup_delete_Some in Hk as [_ Hk]. now apply Hwf.
    + intros k r0 r1 H0 H1. apply lookup_delete_Some in H1 as [_ H1].
      rewrite H0 in H1. injection H1 as <-. split; [lia | reflexivity].
Qed.

(** X9: an update, a move or a delete of an identifier that is not stored
    is answered with "Task not found" and writes nothing. *)
Theorem missing_record_is_reported
    (now : Z) (table : Table)
    (u : UpdateTaskInput) (m : MoveTaskInput) (d : DeleteTaskInput) :
  parseUpdateTask isUuid u = Some u ->
  parseMoveTask isUuid m = Some m ->
  parseDeleteTask isUuid d = Some d ->
  table !! update_id u = None ->
  table !! move_id m = None ->
  table !! delete_id d = None ->
  updateTask isUuid now table u = (table, failed TaskNotFound)
  /\ moveTask isUuid now table m = (table, failed TaskNotFound)
  /\ deleteTask isUuid table d = (table, failed TaskNotFound).
Proof.
  intros Pu Pm Pd Hu Hm Hd. unfold updateTask, moveTask, deleteTask.
  rewrite Pu, Pm, Pd.
  unfold TaskRepository.updateTask, TaskRepository.moveTask,
    TaskRepository.deleteTask.
  rewrite Hu, Hm, Hd. repeat split.
Qed.





End ServiceInvariants.

Lemma sampleTable_wellFormed : wellFormed sampleTable.
Proof.
  intros id r Hid. unfold sampleTable in Hid.
  apply lookup_singleton_Some in Hid as [<- <-]. split; reflexivity.
Qed.

Lemma unsuccessful_operations_write_nothing_witness :
  fst (TaskService.updateTask uuidLength 3000 sampleTable sampleStaleUpdate)
  = sampleTable.
Proof.
  destruct (unsuccessful_operations_write_nothing uuidLength sampleNewId 3000
              sampleTable sampleCreate sampleStaleUpdate sampleStaleMove
              sampleStaleDelete) as (_ & Hupdate & _).
  apply Hupdate. reflexivity.
Defined.

Lemma operations_touch_only_their_row_witness :
  fst (TaskService.moveTask uuidLength 3000 sampleTable sampleMove) !! sampleNewId
  = sampleTable !! sampleNewId.
Proof.
  destruct (operations_touch_only_their_row uuidLength sampleNewId 3000
              sampleTable sampleCreate sampleUpdate sampleMove
              sampleStaleDelete sampleNewId) as (_ & _ & Hmove & _).
  apply Hmove. discriminate.
Defined.

Lemma operations_keep_rows_well_formed_witness :
  wellFormed (fst (TaskService.moveTask uuidLength 3000 sampleTable sampleMove)).
Proof.
  destruct (operations_keep_rows_well_formed uuidLength sampleNewId 3000
              sampleTable sampleCreate sampleUpdate sampleMove
              sampleStaleDelete sampleTable_wellFormed)
    as (_ & _ & [Hmove _] & _).
  exact Hmove.
Defined.

Lemma missing_record_is_reported_witness :
  TaskService.updateTask uuidLength 3000 sampleTable sampleMissingUpdate
    = (sampleTable, TaskService.failed TaskService.TaskNotFound)
  /\ TaskService.moveTask uuidLength 3000 sampleTable sampleMissingMove
    = (sampleTable, TaskService.failed TaskService.TaskNotFound)
  /\ TaskService.deleteTask uuidLength sampleTable sampleMissingDelete
    = (sampleTable, TaskService.failed TaskService.TaskNotFound).
Proof.
  apply (missing_record_is_reported uuidLength 3000 sampleTable
           sampleMissingUpdate sampleMissingMove sampleMissingDelete);
    reflexivity.
Defined.



(* ===================================================================== *)
(** * The key computed for a move                                         *)
(* ===================================================================== *)

Section MovePosition.

Import TaskRepository TaskService.

(** X12: [calculateMovePosition] rejects on every call.  The statement of
    [getReorderPositions] names the column without quotes and the store
    refuses it, so the neighbours are never read and
    [generatePositionBetween] is never reached, whatever the column holds
    and whatever the target index. *)
Theorem calculateMovePosition_rejects
    (table : Table) (column : Column) (targetIndex : Z) :
  storeParses sqlColumnPositions = false
  /\ getReorderPositions table column targetIndex = inl SyntaxError
  /\ calculateMovePosition table column targetIndex = inl (StoreRejects SyntaxError)
  /\ forall position,
       calculateMovePosition table column targetIndex <> inr position.
Proof. repeat split. discriminate. Qed.

End MovePosition.

(* ===================================================================== *)
(** * Properties of the server's task handlers                            *)
(* ===================================================================== *)

Section HandlerFacts.

Import TaskRepository TaskService WebSocketHandler.

Variable isUuid : string -> bool.

Lemma elem_of_sendToClient clients c m r f :
  (r, f) ∈ sendToClient clients c m -> r = c /\ f = m.
Proof.
  unfold sendToClient. destruct (isOpenClient clients c).
  - intros H. apply list_elem_of_singleton in H. now injection H as -> ->.
  - intros H. inversion H.
Qed.

Lemma elem_of_sendError clients c e o st r f :
  (r, f) ∈ sendError clients c e o st -> r = c.
Proof. intros H. now apply elem_of_sendToClient in H as [-> _]. Qed.

Lemma elem_of_broadcastExcept clients ex m r f :
  (r, f) ∈ broadcastExcept clients ex m ->
  f = m /\ r <> ex /\ (r, true) ∈ clients.
Proof.
  unfold broadcastExcept. intros H.
  apply list_elem_of_fmap in H as ([c o] & E & Hc). injection E as -> ->.
  apply list_elem_of_In, filter_In in Hc as [Hin Hcond]. simpl in *.
  apply andb_true_iff in Hcond as [Hne ->].
  split; [reflexivity|]. split.
  - intros ->. now rewrite String.eqb_refl in Hne.
  - now apply list_elem_of_In.
Qed.

Lemma framesTo_app c out1 out2 :
  framesTo c (out1 ++ out2) = framesTo c out1 ++ framesTo c out2.
Proof. unfold framesTo. apply List.filter_app. Qed.

Lemma framesTo_sendToClient clients c m :
  framesTo c (sendToClient clients c m)
  = if isOpenClient clients c then [(c, m)] else [].
Proof.
  unfold sendToClient. destruct (isOpenClient clients c); [|reflexivity].
  simpl. now rewrite String.eqb_refl.
Qed.

Lemma framesTo_sendToClient_other clients c c' m :
  c <> c' -> framesTo c (sendToClient clients c' m) = [].
Proof.
  intros Hne. unfold sendToClient. destruct (isOpenClient clients c'); [|reflexivity].
  simpl. destruct (String.eqb_spec c' c); [congruence | reflexivity].
Qed.

Lemma framesTo_broadcastExcept_origin clients ex m :
  framesTo ex (broadcastExcept clients ex m) = [].
Proof.
  unfold broadcastExcept, framesTo.
  induction clients as [|[c o] clients IH]; [reflexivity|]. simpl.
  destruct (String.eqb_spec c ex) as [->|Hne]; simpl; [exact IH|].
  destruct o; simpl; [|exact IH].
  destruct (String.eqb_spec c ex); [congruence | exact IH].
Qed.

Lemma framesTo_broadcastExcept_absent clients ex m c :
  (c, true) ∉ clients -> framesTo c (broadcastExcept clients ex m) = [].
Proof.
  unfold broadcastExcept, framesTo.
  induction clients as [|[c' o] clients IH]; intros Hnot; [reflexivity|]. simpl.
  assert (Hrest : (c, true) ∉ clients) by (intros H; apply Hnot; now right).
  destruct (negb (String.eqb c' ex) && o) eqn:E; simpl; [|now apply IH].
  apply andb_true_iff in E as [_ ->].
  destruct (String.eqb_spec c' c) as [->|Hne]; [|now apply IH].
  exfalso. apply Hnot. now left.
Qed.

Lemma framesTo_broadcastExcept_other clients ex m c :
  NoDup (fst <$> clients) -> (c, true) ∈ clients -> c <> ex ->
  framesTo c (broadcastExcept clients ex m) = [(c, m)].
Proof.
  unfold broadcastExcept, framesTo.
  induction clients as [|[c' o] clients IH]; intros Hnd Hin Hne; [inversion Hin|].
  rewrite fmap_cons in Hnd. apply NoDup_cons in Hnd as [Hfresh Hnd].
  apply elem_of_cons in Hin as [E | Hin].
  - injection E as <- <-. simpl.
    destruct (String.eqb_spec c ex); [congruence|]. simpl.
    rewrite String.eqb_refl. f_equal.
    apply (framesTo_broadcastExcept_absent clients ex m c).
    intros H. apply Hfresh. apply list_elem_of_fmap. now exists (c, true).
  - simpl. assert (Hcc : c' <> c).
    { intros ->. apply Hfresh. apply list_elem_of_fmap. now exists (c, true). }
    destruct (negb (String.eqb c' ex) && o); simpl; [|now apply IH].
    destruct (String.eqb_spec c' c); [congruence | now apply IH].
Qed.

(** X14: what reaches a client other than the sender is always the delta of
    a committed operation: the record (or the deletion) that the table holds
    after the handler ran.  A refused, unknown or invalid command is never
    passed on. *)
Theorem other_clients_see_only_committed_changes
    (newId : string) (nowDb : Z) (first second : Stamp)
    (clients : Clients) (table : Table) (clientId : string)
    (recipient : string) (frame : ServerFrame) :
  recipient <> clientId ->
  (forall message,
     (recipient, frame) ∈ snd (handleTaskCreate newId nowDb first second
                                 clients table clientId message) ->
     exists task,
       frame = serverFrame "task:create" (TaskDelta task) clientId second
       /\ getTaskById (fst (handleTaskCreate newId nowDb first second
                              clients table clientId message)) newId = Some task)
  /\ (forall message,
        (recipient, frame) ∈ snd (handleTaskUpdate isUuid nowDb first second
                                    clients table clientId message) ->
        exists task,
          frame = serverFrame "task:update" (TaskDelta task) clientId second
          /\ getTaskById (fst (handleTaskUpdate isUuid nowDb first second
                                 clients table clientId message))
               (update_id (command_payload message)) = Some task)
  /\ (forall message table' out,
        handleTaskMove isUuid nowDb first second clients table clientId message
          = inr (table', out) ->
        (recipient, frame) ∈ out ->
        exists task,
          frame = serverFrame "task:move" (TaskDelta task) clientId second
          /\ getTaskById table' (mc_id (command_payload message)) = Some task)
  /\ (forall message,
        (recipient, frame) ∈ snd (handleTaskDelete isUuid first second
                                    clients table clientId message) ->
        frame = serverFrame "task:delete"
                  (DeletedDelta (delete_id (command_payload message)))
                  clientId second
        /\ getTaskById (fst (handleTaskDelete isUuid first second
                               clients table clientId message))
             (delete_id (command_payload message)) = None).
Proof.
  intros Hother. split; [|split; [|split]].
  - intros message. unfold handleTaskCreate.
    destruct (createTask_cases newId nowDb table (command_payload message))
      as [e ->]; simpl.
    intros H. apply elem_of_sendError in H. congruence.
  - intros message. unfold handleTaskUpdate.
    destruct (updateTask_cases isUuid nowDb table (command_payload message))
      as [[e ->] | [[k ->] | (row & row' & _ & -> & _)]]; simpl.
    + intros H. apply elem_of_sendError in H. congruence.
    + intros H. apply elem_of_sendToClient in H as [-> _]. congruence.
    + intros H. apply elem_of_app in H as [H | H].
      * apply elem_of_sendToClient in H as [-> _]. congruence.
      * apply elem_of_broadcastExcept in H as (-> & _).
        exists (rowToTask row'). split; [reflexivity|].
        unfold getTaskById. now rewrite lookup_insert_eq.
  - intros message table' out. unfold handleTaskMove.
    destruct (calculateMovePosition table _ _) as [rejection|position];
      [discriminate|].
    set (moveInput := {| move_id := mc_id (command_payload message);
                         move_column := mc_column (command_payload message);
                         move_position := position;
                         move_version := mc_version (command_payload message) |}).
    destruct (moveTask_cases isUuid nowDb table moveInput)
      as [[e ->] | [k ->]]; simpl;
      intros E; injection E as <- <-.
    + intros H. apply elem_of_sendError in H. congruence.
    + intros H. apply elem_of_app in H as [H | H].
      * apply elem_of_sendToClient in H as [-> _]. congruence.
      * destruct (conflict_currentTask k); [|inversion H].
        apply elem_of_sendToClient in H as [-> _]. congruence.
  - intros message. unfold handleTaskDelete.
    destruct (deleteTask_cases isUuid table (command_payload message))
      as [[e ->] | [[k ->] | (row & _ & ->)]]; simpl.
    + intros H. apply elem_of_sendError in H. congruence.
    + intros H. apply elem_of_sendToClient in H as [-> _]. congruence.
    + intros H. apply elem_of_app in H as [H | H].
      * apply elem_of_sendToClient in H as [-> _]. congruence.
      * apply elem_of_broadcastExcept in H as (-> & _).
        split; [reflexivity|].
        unfold getTaskById. now rewrite lookup_delete_eq.
Qed.

(** X15: a sender whose socket is open gets exactly one frame in reply to an
    update, from "server", echoing the command's message id: the
    acknowledgement with the committed record, the conflict notice, or the
    error. *)
Theorem handleTaskUpdate_replies_once
    (nowDb : Z) (first second : Stamp)
    (clients : Clients) (table : Table) (clientId : string)
    (message : Command UpdateTaskInput) :
  isOpenClient clients clientId = true ->
  exists frame,
    framesTo clientId
      (snd (handleTaskUpdate isUuid nowDb first second clients table clientId message))
    = [(clientId, frame)]
    /\ frame_clientId frame = "server"%string
    /\ frame_messageId frame = stamp_id first
    /\ ((exists task,
           snd (updateTask isUuid nowDb table (command_payload message))
             = succeeded task
           /\ frame_type frame = "sync:ack"%string
           /\ frame_payload frame = AckTask (command_messageId message) task)
        \/ (exists c,
              snd (updateTask isUuid nowDb table (command_payload message))
                = conflicted c
              /\ frame_type frame = "conflict:notification"%string
              /\ frame_payload frame
                 = ConflictNotice (command_messageId message) c None)
        \/ (exists e,
              snd (updateTask isUuid nowDb table (command_payload message))
                = failed e
              /\ frame_type frame = "error"%string
              /\ frame_payload frame
                 = ErrorNotice e (Some (command_messageId message)))).
Proof.
  intros Hopen. unfold handleTaskUpdate.
  destruct (updateTask_cases isUuid nowDb table (command_payload message))
    as [[e ->] | [[k ->] | (row & row' & _ & -> & _)]]; simpl.
  - unfold sendError. rewrite framesTo_sendToClient, Hopen.
    eexists. split; [reflexivity|]. split; [reflexivity|]. split; [reflexivity|].
    right. right. exists e. repeat split.
  - rewrite framesTo_sendToClient, Hopen.
    eexists. split; [reflexivity|]. split; [reflexivity|]. split; [reflexivity|].
    right. left. exists k. repeat split.
  - rewrite framesTo_app, framesTo_sendToClient, Hopen,
      framesTo_broadcastExcept_origin.
    eexists. split; [reflexivity|]. split; [reflexivity|]. split; [reflexivity|].
    left. eexists. repeat split.
Qed.

(** X16: when an update commits, every other registered client whose socket
    is open receives the updated record exactly once, attributed to the
    sender, and a client whose socket is not open receives nothing. *)
Theorem handleTaskUpdate_delivers_to_others
    (nowDb : Z) (first second : Stamp)
    (clients : Clients) (table : Table) (clientId : string)
    (message : Command UpdateTaskInput) (task : Task) (other : string) :
  NoDup (fst <$> clients) ->
  other <> clientId ->
  snd (updateTask isUuid nowDb table (command_payload message)) = succeeded task ->
  ((other, true) ∈ clients ->
   framesTo other
     (snd (handleTaskUpdate isUuid nowDb first second clients table clientId message))
   = [(other, serverFrame "task:update" (TaskDelta task) clientId second)])
  /\ ((other, true) ∉ clients ->
      framesTo other
        (snd (handleTaskUpdate isUuid nowDb first second clients table clientId
                message))
      = []).
Proof.
  intros Hnd Hne Hok. unfold handleTaskUpdate.
  destruct (updateTask isUuid nowDb table (command_payload message))
    as [table' result]. simpl in Hok. subst result. simpl.
  rewrite framesTo_app, framesTo_sendToClient_other by exact Hne. simpl.
  split; intros Hin.
  - now apply framesTo_broadcastExcept_other.
  - now apply framesTo_broadcastExcept_absent.
Qed.

(** X17: no move command is answered.  [handleTaskMove] computes the key
    before anything else, through [calculateMovePosition], which rejects;
    nothing in the handler catches that, so for every command, stale or
    not, the handler rejects with the store's error before the service is
    called: nothing is written, and no acknowledgement, conflict notice,
    error or delta is sent to anyone. *)
Theorem handleTaskMove_never_replies
    (nowDb : Z) (first second : Stamp)
    (clients : Clients) (table : Table) (clientId : string)
    (message : Command MoveCommand) :
  handleTaskMove isUuid nowDb first second clients table clientId message
    = inl (StoreRejects SyntaxError)
  /\ forall table' out,
       handleTaskMove isUuid nowDb first second clients table clientId message
       <> inr (table', out).
Proof. split; [reflexivity | discriminate]. Qed.

(** X8: no create command stores a task.  For every command the table is
    left as it was and nothing is passed on to the other clients; a sender
    whose socket is open receives exactly one frame, the error that echoes
    the command's message id, which for a request that passes validation
    is "Failed to create task". *)
Theorem handleTaskCreate_answers_error
    (newId : string) (nowDb : Z) (first second : Stamp)
    (clients : Clients) (table : Table) (clientId : string)
    (message : Command RawCreateTask) :
  isOpenClient clients clientId = true ->
  exists e,
    handleTaskCreate newId nowDb first second clients table clientId message
    = (table,
       [(clientId,
         serverFrame "error" (ErrorNotice e (Some (command_messageId message)))
           "server" first)])
    /\ snd (createTask newId nowDb table (command_payload message)) = failed e
    /\ (forall validated,
          parseCreateTask (command_payload message) = Some validated ->
          e = FailedTo "Failed to create task").
Proof.
  intros Hopen. unfold handleTaskCreate, createTask.
  destruct (parseCreateTask (command_payload message)) as [validated|]; simpl;
    unfold sendError, sendToClient; rewrite Hopen.
  - exists (FailedTo "Failed to create task"). repeat split.
  - exists ValidationError. split; [reflexivity|]. split; [reflexivity|].
    intros validated H. discriminate.
Qed.

End HandlerFacts.

Lemma other_clients_see_only_committed_changes_witness :
  exists task,
    WebSocketHandler.serverFrame "task:update"
      (WebSocketHandler.TaskDelta sampleAckTask) "client-a" sampleSecond
    = WebSocketHandler.serverFrame "task:update"
        (WebSocketHandler.TaskDelta task) "client-a" sampleSecond
    /\ TaskRepository.getTaskById
         (fst (WebSocketHandler.handleTaskUpdate uuidLength 3000 sampleFirst
                 sampleSecond sampleClients sampleTable "client-a"
                 sampleUpdateCommand))
         sampleId = Some task.
Proof.
  destruct (other_clients_see_only_committed_changes uuidLength sampleNewId 3000
              sampleFirst sampleSecond sampleClients sampleTable "client-a"
              "client-b"
              (WebSocketHandler.serverFrame "task:update"
                 (WebSocketHandler.TaskDelta sampleAckTask) "client-a" sampleSecond))
    as (_ & Hupdate & _); [discriminate|].
  apply (Hupdate sampleUpdateCommand).
  apply list_elem_of_In. right. left. reflexivity.
Defined.

Lemma handleTaskUpdate_replies_once_witness :
  exists frame,
    framesTo "client-a"
      (snd (WebSocketHandler.handleTaskUpdate uuidLength 3000 sampleFirst
              sampleSecond sampleClients sampleTable "client-a"
              sampleUpdateCommand))
    = [("client-a"%string, frame)]
    /\ WebSocketHandler.frame_clientId frame = "server"%string.
Proof.
  destruct (handleTaskUpdate_replies_once uuidLength 3000 sampleFirst sampleSecond
              sampleClients sampleTable "client-a" sampleUpdateCommand eq_refl)
    as (frame & Hframes & Hfrom & _).
  exists frame. split; [exact Hframes | exact Hfrom].
Defined.

Lemma handleTaskUpdate_delivers_to_others_witness :
  framesTo "client-b"
    (snd (WebSocketHandler.handleTaskUpdate uuidLength 3000 sampleFirst
            sampleSecond sampleClients sampleTable "client-a" sampleUpdateCommand))
  = [("client-b"%string,
      WebSocketHandler.serverFrame "task:update"
        (WebSocketHandler.TaskDelta sampleAckTask) "client-a" sampleSecond)].
Proof.
  destruct (handleTaskUpdate_delivers_to_others uuidLength 3000 sampleFirst
              sampleSecond sampleClients sampleTable "client-a"
              sampleUpdateCommand sampleAckTask "client-b")
    as [Hopen _].
  - apply (bool_decide_unpack _). vm_compute. exact I.
  - discriminate.
  - reflexivity.
  - apply Hopen. apply list_elem_of_In. right. left. reflexivity.
Defined.

Lemma handleTaskCreate_answers_error_witness :
  exists e,
    WebSocketHandler.handleTaskCreate sampleNewId 3000 sampleFirst sampleSecond
      sampleClients sampleTable "client-a"
      (WebSocketHandler.mkCommand "message-3" sampleCreate)
    = (sampleTable,
       [("client-a"%string,
         WebSocketHandler.serverFrame "error"
           (WebSocketHandler.ErrorNotice e (Some "message-3"%string))
           "server" sampleFirst)])
    /\ e = TaskService.FailedTo "Failed to create task".
Proof.
  destruct (handleTaskCreate_answers_error sampleNewId 3000 sampleFirst
              sampleSecond sampleClients sampleTable "client-a"
              (WebSocketHandler.mkCommand "message-3" sampleCreate) eq_refl)
    as (e & Hresult & _ & Herror).
  exists e. split; [exact Hresult|].
  apply (Herror {| create_title := "Review draft";
                   create_description := EmptyString;
                   create_column := in_progress |}).
  reflexivity.
Defined.

(* ===================================================================== *)
(** * Further properties of the client                                    *)
(* ===================================================================== *)

Section ReconnectDelay.

Import UseWebSocketCommands.

Lemma retries_double_the_delay n a :
  1 <= a ->
  fold_left reconnectStep (replicate n RetryTimerFired) (Z.min a MAX_RECONNECT_DELAY)
  = Z.min (a * 2 ^ Z.of_nat n) MAX_RECONNECT_DELAY.
Proof.
  revert a. induction n as [|n IH]; intros a Ha.
  - simpl. now rewrite Z.mul_1_r.
  - cbn [replicate fold_left reconnectStep].
    replace (Z.min (Z.min a MAX_RECONNECT_DELAY * 2) MAX_RECONNECT_DELAY)
      with (Z.min (a * 2) MAX_RECONNECT_DELAY)
      by (unfold MAX_RECONNECT_DELAY; lia).
    rewrite IH by lia. rewrite Nat2Z.inj_succ, Z.pow_succ_r by lia.
    f_equal. lia.
Qed.

(** X18: the reconnect delay always stays between one and thirty seconds,
    and after the socket last opened (or from the start) [n] failed attempts
    leave it at 1000 * 2^n milliseconds capped at 30000. *)
Theorem reconnect_delay_backoff (events : list ReconnectEvent) (n : nat) :
  RECONNECT_DELAY <= reconnectDelayAfter events <= MAX_RECONNECT_DELAY
  /\ reconnectDelayAfter (replicate n RetryTimerFired)
     = Z.min (1000 * 2 ^ Z.of_nat n) 30000
  /\ reconnectDelayAfter (events ++ SocketOpened :: replicate n RetryTimerFired)
     = Z.min (1000 * 2 ^ Z.of_nat n) 30000.
Proof.
  split; [|split].
  - unfold reconnectDelayAfter.
    assert (Hinv : forall d, RECONNECT_DELAY <= d <= MAX_RECONNECT_DELAY ->
              RECONNECT_DELAY <= fold_left reconnectStep events d
                <= MAX_RECONNECT_DELAY).
    { induction events as [|e events IH]; intros d Hd; [exact Hd|].
      simpl. apply IH. destruct e; unfold reconnectStep, RECONNECT_DELAY,
        MAX_RECONNECT_DELAY in *; lia. }
    apply Hinv. unfold RECONNECT_DELAY, MAX_RECONNECT_DELAY. lia.
  - unfold reconnectDelayAfter.
    change RECONNECT_DELAY with (Z.min 1000 MAX_RECONNECT_DELAY).
    now rewrite retries_double_the_delay.
  - unfold reconnectDelayAfter. rewrite fold_left_app.
    cbn [fold_left reconnectStep].
    change RECONNECT_DELAY with (Z.min 1000 MAX_RECONNECT_DELAY).
    now rewrite retries_double_the_delay.
Qed.

End ReconnectDelay.

Section ReplayQueue.

Import TaskStore UseWebSocket.

Lemma replayFrom_keeps_tasks ready i queue s wire :
  tasks (fst (replayFrom ready i queue s wire)) = tasks s
  /\ pendingOperations (fst (replayFrom ready i queue s wire)) = pendingOperations s
  /\ connectionStatus (fst (replayFrom ready i queue s wire)) = connectionStatus s.
Proof.
  revert i s wire. induction queue as [|operation rest IH]; intros i s wire; simpl.
  - repeat split.
  - destruct (ready i); [|apply IH].
    destruct (IH (S i) (removeFromQueue (qo_id operation) s)
                (wire ++ [qo_payload operation])) as (H1 & H2 & H3).
    now rewrite H1, H2, H3.
Qed.

Lemma replayFrom_open_remaining i queue s wire op :
  op ∈ offlineQueue (fst (replayFrom (fun _ => true) i queue s wire)) ->
  op ∈ offlineQueue s /\ forall o, o ∈ queue -> qo_id op <> qo_id o.
Proof.
  revert i s wire. induction queue as [|operation rest IH]; intros i s wire; simpl.
  - intros H. split; [exact H|]. intros o Ho. inversion Ho.
  - intros H. apply IH in H as [Hin Hrest].
    unfold removeFromQueue in Hin. simpl in Hin.
    apply list_elem_of_filter in Hin as [Hne Hin].
    split; [exact Hin|]. intros o Ho. apply elem_of_cons in Ho as [->|Ho].
    + intros E. rewrite E, String.eqb_refl in Hne. discriminate.
    + now apply Hrest.
Qed.

Lemma replayFrom_closed i queue s wire :
  replayFrom (fun _ => false) i queue s wire = (s, wire).
Proof.
  revert i. induction queue as [|operation rest IH]; intros i; simpl; [reflexivity|].
  apply IH.
Qed.

(** X19: when the socket stays open during the replay, the queue is empty
    afterwards and the tasks and pending operations are untouched; when it
    is not open at any iteration, nothing is written to the socket and the
    queue is kept whole. *)
Theorem replay_drains_or_keeps_queue (s : TaskState) :
  offlineQueue (fst (onopen (fun _ => true) s)) = []
  /\ tasks (fst (onopen (fun _ => true) s)) = tasks s
  /\ pendingOperations (fst (onopen (fun _ => true) s)) = pendingOperations s
  /\ connectionStatus (fst (onopen (fun _ => true) s)) = connected
  /\ onopen (fun _ => false) s = (setConnectionStatus connected s, []).
Proof.
  unfold onopen.
  destruct (replayFrom_keeps_tasks (fun _ => true) 0
              (offlineQueue (setConnectionStatus connected s))
              (setConnectionStatus connected s) []) as (H1 & H2 & H3).
  split; [|split; [exact H1 | split; [exact H2 | split; [exact H3|]]]].
  - destruct (offlineQueue (fst (replayFrom _ _ _ _ _))) as [|op rest] eqn:E;
      [reflexivity|].
    exfalso.
    destruct (replayFrom_open_remaining 0
                (offlineQueue (setConnectionStatus connected s))
                (setConnectionStatus connected s) [] op) as [Hin Hne].
    { rewrite E. now left. }
    now apply (Hne op).
  - apply replayFrom_closed.
Qed.

End ReplayQueue.

Section ClientRoundTrips.

Import TaskStore TaskStoreReconcile UseWebSocket UseWebSocketCommands.

Variable localeCompare : Position -> Position -> Z.

Lemma insertSorted_Permutation {A} (cmp : A -> A -> Z) x l :
  insertSorted cmp x l ≡ₚ x :: l.
Proof.
  induction l as [|y l IH]; simpl; [reflexivity|].
  destruct (cmp x y >? 0); [|reflexivity].
  rewrite IH. apply Permutation_swap.
Qed.

Lemma jsSort_Permutation {A} (cmp : A -> A -> Z) l : jsSort cmp l ≡ₚ l.
Proof.
  induction l as [|x l IH]; simpl; [reflexivity|].
  fold (jsSort cmp l). now rewrite insertSorted_Permutation, IH.
Qed.

(** X20: [sortTasksByPosition] returns a rearrangement of its argument in
    which no task is followed by one that compares below it, and returns an
    argument that is already so ordered unchanged. *)
Theorem sortTasksByPosition_sorts (ts : list Task) :
  (forall a b, 0 < localeCompare a b -> localeCompare b a <= 0) ->
  sortTasksByPosition localeCompare ts ≡ₚ ts
  /\ Sorted (fun a b => compareTasks localeCompare a b <= 0)
       (sortTasksByPosition localeCompare ts)
  /\ (Sorted (fun a b => compareTasks localeCompare a b <= 0) ts ->
      sortTasksByPosition localeCompare ts = ts).
Proof.
  intros Hasym. unfold sortTasksByPosition. split; [|split].
  - apply jsSort_Permutation.
  - apply jsSort_Sorted. now apply compareTasks_asym.
  - apply jsSort_of_Sorted.
Qed.

Lemma replaceById_compose (t t' : Task) (l : list Task) :
  task_id t = task_id t' ->
  replaceById t' <$> (replaceById t <$> l) = replaceById t' <$> l.
Proof.
  intros Hid. rewrite <- list_fmap_compose. apply list_fmap_ext.
  intros i x _. unfold compose, replaceById.
  destruct (String.eqb (task_id x) (task_id t)) eqn:E.
  - rewrite Hid, String.eqb_refl. rewrite Hid in E. now rewrite E.
  - reflexivity.
Qed.

Lemma replaceById_absent (t : Task) (l : list Task) :
  (forall x, x ∈ l -> task_id x <> task_id t) -> replaceById t <$> l = l.
Proof.
  intros Habs. apply fmap_fixed. intros x Hx. unfold replaceById.
  destruct (String.eqb_spec (task_id x) (task_id t)) as [E|]; [|reflexivity].
  now apply Habs in Hx.
Qed.

Lemma find_by_id_unique (l : list Task) (id : string) (t : Task) :
  (exists x, x ∈ l /\ task_id x = id) ->
  (forall x, x ∈ l -> task_id x = id -> x = t) ->
  find (fun task => String.eqb (task_id task) id) l = Some t.
Proof.
  intros (x & Hx & Hid) Huniq.
  destruct (find_In_Some (fun task => String.eqb (task_id task) id) l x Hx)
    as [y Hy]; [now apply String.eqb_eq|].
  rewrite Hy. f_equal. apply find_some in Hy as [Hin Hyid].
  apply Huniq; [now apply list_elem_of_In | now apply String.eqb_eq].
Qed.

Lemma find_replaced (l : list Task) (t original : Task) :
  find (fun task => String.eqb (task_id task) (task_id t)) l = Some original ->
  forall l', l' ≡ₚ replaceById t <$> l ->
  find (fun task => String.eqb (task_id task) (task_id t)) l' = Some t.
Proof.
  intros Hfind l' Hperm. apply find_some in Hfind as [Hin Hid].
  apply String.eqb_eq in Hid. apply find_by_id_unique.
  - exists t. split; [|reflexivity]. rewrite Hperm. apply list_elem_of_fmap.
    exists original. split; [|now apply list_elem_of_In].
    unfold replaceById. now rewrite Hid, String.eqb_refl.
  - intros x Hx Hxid. rewrite Hperm in Hx.
    apply list_elem_of_fmap in Hx as (y & -> & _). unfold replaceById in *.
    destruct (String.eqb_spec (task_id y) (task_id t)); [reflexivity | congruence].
Qed.

Lemma tasks_editTask isOpen messageId queueId now task title description s :
  let r := editTask localeCompare isOpen messageId queueId now task title description s in
  exists optimistic,
    task_id optimistic = task_id task
    /\ tasks (fst (fst r))
       = sortTasksByPosition localeCompare (replaceById optimistic <$> tasks s)
    /\ pendingOperations (fst (fst r))
       = <[messageId := {| po_type := "update";
                           po_originalTask := getTaskById (task_id task) s |}]>
           (pendingOperations s)
    /\ snd r = messageId.
Proof.
  unfold editTask, sendMessage. eexists. split; [|destruct isOpen; repeat split].
  reflexivity.
Qed.

(** X21: an optimistic edit and its acknowledgement: whether or not the
    command was queued, once the acknowledgement with the server's record
    arrives, the local list holds that record in place of every task with
    its id, and the pending operation recorded for the command is gone. *)
Theorem edit_then_ack
    (isOpen : bool) (messageId queueId : string) (now : Z)
    (task : Task) (title description : string) (s : TaskState)
    (original serverTask : Task) :
  getTaskById (task_id task) s = Some original ->
  task_id serverTask = task_id task ->
  let r := editTask localeCompare isOpen messageId queueId now task title description s in
  let final := handleMessage localeCompare (SyncAck (snd r) (Some serverTask))
                 (fst (fst r)) in
  tasks final ≡ₚ replaceById serverTask <$> tasks s
  /\ getTaskById (task_id task) final = Some serverTask
  /\ pendingOperations final = delete messageId (pendingOperations s).
Proof.
  intros Horig Hid r final.
  destruct (tasks_editTask isOpen messageId queueId now task title description s)
    as (optimistic & Hoid & Htasks & Hpending & Hmid).
  fold r in Htasks, Hpending, Hmid.
  assert (Hfound : exists y,
    getTaskById (task_id serverTask)
      (resolvePendingOperation (snd r) (fst (fst r))) = Some y).
  { unfold getTaskById. simpl. rewrite Htasks, Hid, <- Hoid.
    exists optimistic.
    apply (find_replaced (tasks s) optimistic original).
    - rewrite Hoid. exact Horig.
    - apply jsSort_Permutation. }
  destruct Hfound as [y Hy].
  assert (Hfinal : final = updateTask localeCompare serverTask
                             (resolvePendingOperation (snd r) (fst (fst r)))).
  { unfold final. simpl. now rewrite Hy. }
  assert (Hperm : tasks final ≡ₚ replaceById serverTask <$> tasks s).
  { rewrite Hfinal. simpl. unfold sortTasksByPosition.
    rewrite jsSort_Permutation. fold (replaceById serverTask).
    rewrite Htasks. unfold sortTasksByPosition. rewrite jsSort_Permutation.
    apply Permutation_refl'. apply replaceById_compose. congruence. }
  split; [exact Hperm|]. split.
  - unfold getTaskById. rewrite <- Hid.
    apply (find_replaced (tasks s) serverTask original); [|exact Hperm].
    rewrite Hid. exact Horig.
  - rewrite Hfinal. simpl. rewrite Hpending, Hmid. apply delete_insert_eq.
Qed.

Lemma revert_after_editTask isOpen messageId queueId now task title description s
    original :
  getTaskById (task_id task) s = Some original ->
  let r := editTask localeCompare isOpen messageId queueId now task title description s in
  tasks (revertPendingOperation localeCompare (snd r) (fst (fst r)))
    ≡ₚ replaceById original <$> tasks s
  /\ pendingOperations (revertPendingOperation localeCompare (snd r) (fst (fst r)))
     = delete messageId (pendingOperations s)
  /\ task_id original = task_id task.
Proof.
  intros Horig r.
  destruct (tasks_editTask isOpen messageId queueId now task title description s)
    as (optimistic & Hoid & Htasks & Hpending & Hmid).
  fold r in Htasks, Hpending, Hmid.
  assert (Hid : task_id original = task_id task).
  { unfold getTaskById in Horig. apply find_some in Horig as [_ E].
    now apply String.eqb_eq in E. }
  unfold revertPendingOperation.
  rewrite Hpending, Hmid, lookup_insert_eq, Horig, delete_insert_eq. simpl.
  split; [|split; [reflexivity | exact Hid]].
  unfold sortTasksByPosition. rewrite jsSort_Permutation.
  fold (replaceById original). rewrite Htasks.
  unfold sortTasksByPosition. rewrite jsSort_Permutation.
  apply Permutation_refl'. apply replaceById_compose. congruence.
Qed.

(** X22: an optimistic edit that the server refuses with a conflict: once
    the notification with the server's current record arrives, the local
    list holds that record in place of every task with its id, the pending
    operation is gone and one notification has been added. *)
Theorem edit_then_conflict
    (isOpen : bool) (messageId queueId : string) (now now' : Z)
    (task : Task) (title description : string) (s : TaskState)
    (notifications : list ConflictNotification) (notificationId : string)
    (original current : Task) (conflict : TaskService.Conflict) :
  getTaskById (task_id task) s = Some original ->
  TaskService.conflict_currentTask conflict = Some current ->
  task_id current = task_id task ->
  let r := editTask localeCompare isOpen messageId queueId now task title description s in
  let final :=
    handleConflictNotification localeCompare notificationId now' (snd r) conflict
      {| core := fst (fst r); conflicts := notifications |} in
  tasks (core final) ≡ₚ replaceById current <$> tasks s
  /\ getTaskById (task_id task) (core final) = Some current
  /\ pendingOperations (core final) = delete messageId (pendingOperations s)
  /\ conflicts final
     = notifications ++
         [{| cn_id := notificationId;
             cn_type := TaskService.conflict_type conflict;
             cn_message := TaskService.conflict_message conflict;
             cn_timestamp := now' |}].
Proof.
  intros Horig Hcur Hid r final.
  destruct (revert_after_editTask isOpen messageId queueId now task title
              description s original Horig) as (Hperm & Hpending & Hoid).
  fold r in Hperm, Hpending.
  assert (Hfinal : core final
            = updateTask localeCompare current
                (revertPendingOperation localeCompare (snd r) (fst (fst r)))).
  { unfold final, handleConflictNotification. rewrite Hcur. reflexivity. }
  assert (Hp : tasks (core final) ≡ₚ replaceById current <$> tasks s).
  { rewrite Hfinal. simpl. unfold sortTasksByPosition.
    rewrite jsSort_Permutation. fold (replaceById current). rewrite Hperm.
    apply Permutation_refl'. apply replaceById_compose. congruence. }
  split; [exact Hp|]. split; [|split].
  - unfold getTaskById. rewrite <- Hid.
    apply (find_replaced (tasks s) current original); [|exact Hp].
    rewrite Hid. exact Horig.
  - rewrite Hfinal. simpl. exact Hpending.
  - unfold final, handleConflictNotification. rewrite Hcur. reflexivity.
Qed.

Lemma NoDup_ids_unique (l : list Task) (x y : Task) :
  NoDup (task_id <$> l) -> x ∈ l -> y ∈ l -> task_id x = task_id y -> x = y.
Proof.
  induction l as [|z l IH]; intros Hnd Hx Hy Hid; [inversion Hx|].
  rewrite fmap_cons in Hnd. apply NoDup_cons in Hnd as [Hfresh Hnd].
  apply elem_of_cons in Hx as [->|Hx]; apply elem_of_cons in Hy as [->|Hy].
  - reflexivity.
  - exfalso. apply Hfresh. rewrite Hid. now apply list_elem_of_fmap_2.
  - exfalso. apply Hfresh. rewrite <- Hid. now apply list_elem_of_fmap_2.
  - now apply IH.
Qed.

(** X23: an optimistic edit that the server answers with an error naming
    the command is rolled back: with no two local tasks sharing an id, the
    local list holds the same tasks as before the edit, the edited task is
    the snapshot again, and the pending operation is gone. *)
Theorem edit_then_error
    (isOpen : bool) (messageId queueId : string) (now : Z)
    (task : Task) (title description : string) (s : TaskState)
    (original : Task) :
  getTaskById (task_id task) s = Some original ->
  NoDup (task_id <$> tasks s) ->
  messageId <> EmptyString ->
  let r := editTask localeCompare isOpen messageId queueId now task title description s in
  let final := handleError localeCompare (Some (snd r)) (fst (fst r)) in
  tasks final ≡ₚ tasks s
  /\ getTaskById (task_id task) final = Some original
  /\ pendingOperations final = delete messageId (pendingOperations s).
Proof.
  intros Horig Hnd Hmid r final.
  destruct (revert_after_editTask isOpen messageId queueId now task title
              description s original Horig) as (Hperm & Hpending & Hoid).
  fold r in Hperm, Hpending.
  assert (Hr : snd r = messageId).
  { destruct (tasks_editTask isOpen messageId queueId now task title description s)
      as (_ & _ & _ & _ & H). exact H. }
  assert (Hfinal : final = revertPendingOperation localeCompare (snd r) (fst (fst r))).
  { unfold final, handleError. rewrite Hr. destruct messageId; [congruence | reflexivity]. }
  assert (Hin : original ∈ tasks s).
  { unfold getTaskById in Horig. apply find_some in Horig as [H _].
    now apply list_elem_of_In. }
  assert (Hsame : replaceById original <$> tasks s = tasks s).
  { apply fmap_fixed. intros x Hx. unfold replaceById.
    destruct (String.eqb_spec (task_id x) (task_id original)) as [E|]; [|reflexivity].
    symmetry. now apply (NoDup_ids_unique (tasks s)). }
  rewrite Hsame in Hperm. rewrite Hfinal.
  split; [exact Hperm|]. split; [|exact Hpending].
  unfold getTaskById. apply find_by_id_unique.
  - exists original. split; [now rewrite Hperm | exact Hoid].
  - intros x Hx Hxid. rewrite Hperm in Hx.
    apply (NoDup_ids_unique (tasks s)); [exact Hnd | exact Hx | exact Hin | congruence].
Qed.

Lemma tasks_deleteTask isOpen messageId queueId now task s :
  let r := deleteTask isOpen messageId queueId now task s in
  tasks (fst (fst r))
    = filter (fun t => String.eqb (task_id t) (task_id task) = false) (tasks s)
  /\ pendingOperations (fst (fst r))
     = <[messageId := {| po_type := "delete";
                         po_originalTask := getTaskById (task_id task) s |}]>
         (pendingOperations s)
  /\ snd r = messageId.
Proof. unfold deleteTask, sendMessage. destruct isOpen; repeat split. Qed.

(** X24: an optimistic delete that the server refuses is not rolled back:
    after the conflict notification of a delete (which carries no record),
    or after an error naming the command, no task with that id is in the
    local list; the other tasks are kept and the pending operation is gone. *)
Theorem refused_delete_stays_deleted
    (isOpen : bool) (messageId queueId : string) (now now' : Z)
    (task : Task) (s : TaskState)
    (notifications : list ConflictNotification) (notificationId : string)
    (conflict : TaskService.Conflict) :
  TaskService.conflict_currentTask conflict = None ->
  messageId <> EmptyString ->
  let r := deleteTask isOpen messageId queueId now task s in
  let kept := filter (fun t => String.eqb (task_id t) (task_id task) = false) (tasks s) in
  let afterConflict :=
    core (handleConflictNotification localeCompare notificationId now' (snd r)
            conflict {| core := fst (fst r); conflicts := notifications |}) in
  let afterError := handleError localeCompare (Some (snd r)) (fst (fst r)) in
  tasks afterConflict ≡ₚ kept
  /\ getTaskById (task_id task) afterConflict = None
  /\ pendingOperations afterConflict = delete messageId (pendingOperations s)
  /\ tasks afterError ≡ₚ kept
  /\ getTaskById (task_id task) afterError = None
  /\ pendingOperations afterError = delete messageId (pendingOperations s).
Proof.
  intros Hcur Hmid r kept afterConflict afterError.
  destruct (tasks_deleteTask isOpen messageId queueId now task s)
    as (Htasks & Hpending & Hr).
  fold r in Htasks, Hpending, Hr. fold kept in Htasks.
  set (reverted := revertPendingOperation localeCompare (snd r) (fst (fst r))).
  assert (Hc : afterConflict = reverted).
  { unfold afterConflict, handleConflictNotification. now rewrite Hcur. }
  assert (He : afterError = reverted).
  { unfold afterError, handleError. rewrite Hr.
    destruct messageId; [congruence | now rewrite <- Hr]. }
  assert (Hrev : tasks reverted ≡ₚ kept
                 /\ pendingOperations reverted = delete messageId (pendingOperations s)).
  { unfold reverted, revertPendingOperation.
    rewrite Hpending, Hr, lookup_insert_eq, delete_insert_eq. simpl.
    destruct (getTaskById (task_id task) s) as [original|] eqn:Horig; simpl.
    - split; [|reflexivity].
      unfold sortTasksByPosition. rewrite jsSort_Permutation.
      fold (replaceById original). rewrite Htasks.
      apply Permutation_refl'. apply replaceById_absent.
      intros x Hx. unfold kept in Hx. apply list_elem_of_filter in Hx as [Hne _].
      unfold getTaskById in Horig. apply find_some in Horig as [_ E].
      apply String.eqb_eq in E. rewrite E.
      intros Heq. rewrite Heq, String.eqb_refl in Hne. discriminate.
    - split; [now rewrite Htasks | reflexivity]. }
  destruct Hrev as [Hperm Hpend].
  assert (Hnone : getTaskById (task_id task) reverted = None).
  { unfold getTaskById.
    destruct (find _ (tasks reverted)) as [x|] eqn:E; [|reflexivity].
    exfalso. apply find_some in E as [Hin Hx].
    apply list_elem_of_In in Hin. rewrite Hperm in Hin. unfold kept in Hin.
    apply list_elem_of_filter in Hin as [Hne _]. congruence. }
  rewrite Hc, He. repeat split; assumption.
Qed.

End ClientRoundTrips.

Lemma comparePositions_asym (a b : Position) :
  0 < comparePositions a b -> comparePositions b a <= 0.
Proof. intros H. rewrite comparePositions_opp. lia. Qed.

Lemma sortTasksByPosition_sorts_witness :
  TaskStore.sortTasksByPosition comparePositions [sampleAckTask; sampleLocalTask]
    ≡ₚ [sampleAckTask; sampleLocalTask].
Proof.
  destruct (sortTasksByPosition_sorts comparePositions
              [sampleAckTask; sampleLocalTask] comparePositions_asym)
    as (Hperm & _).
  exact Hperm.
Defined.

Lemma edit_then_ack_witness :
  TaskStore.getTaskById sampleId
    (UseWebSocket.handleMessage comparePositions
       (UseWebSocket.SyncAck
          (snd (UseWebSocketCommands.editTask comparePositions false
                  "message-7" "queue-7" 2500 sampleLocalTask
                  "Write the report" "Quarterly numbers" sampleClientState))
          (Some sampleAckTask))
       (fst (fst (UseWebSocketCommands.editTask comparePositions false
                    "message-7" "queue-7" 2500 sampleLocalTask
                    "Write the report" "Quarterly numbers" sampleClientState))))
  = Some sampleAckTask.
Proof.
  destruct (edit_then_ack comparePositions false "message-7" "queue-7" 2500
              sampleLocalTask "Write the report" "Quarterly numbers"
              sampleClientState sampleLocalTask sampleAckTask eq_refl eq_refl)
    as (_ & Hfound & _).
  exact Hfound.
Defined.

Lemma edit_then_conflict_witness :
  TaskStore.getTaskById sampleId
    (TaskStoreReconcile.core
       (UseWebSocketCommands.handleConflictNotification comparePositions
          "notification-1" 2600
          (snd (UseWebSocketCommands.editTask comparePositions true
                  "message-7" "queue-7" 2500 sampleLocalTask
                  "Stale title" "Quarterly numbers" sampleClientState))
          sampleEditConflict
          {| TaskStoreReconcile.core :=
               fst (fst (UseWebSocketCommands.editTask comparePositions true
                           "message-7" "queue-7" 2500 sampleLocalTask
                           "Stale title" "Quarterly numbers" sampleClientState));
             TaskStoreReconcile.conflicts := [] |}))
  = Some sampleAckTask.
Proof.
  destruct (edit_then_conflict comparePositions true "message-7" "queue-7"
              2500 2600 sampleLocalTask "Stale title" "Quarterly numbers"
              sampleClientState [] "notification-1" sampleLocalTask sampleAckTask
              sampleEditConflict eq_refl eq_refl eq_refl)
    as (_ & Hfound & _).
  exact Hfound.
Defined.

Lemma edit_then_error_witness :
  TaskStore.getTaskById sampleId
    (UseWebSocketCommands.handleError comparePositions
       (Some (snd (UseWebSocketCommands.editTask comparePositions true
                     "message-7" "queue-7" 2500 sampleLocalTask
                     "Rejected title" "Quarterly numbers" sampleClientState)))
       (fst (fst (UseWebSocketCommands.editTask comparePositions true
                    "message-7" "queue-7" 2500 sampleLocalTask
                    "Rejected title" "Quarterly numbers" sampleClientState))))
  = Some sampleLocalTask.
Proof.
  destruct (edit_then_error comparePositions true "message-7" "queue-7" 2500
              sampleLocalTask "Rejected title" "Quarterly numbers"
              sampleClientState sampleLocalTask eq_refl)
    as (_ & Hfound & _).
  - apply (bool_decide_unpack _). vm_compute. exact I.
  - discriminate.
  - exact Hfound.
Defined.

Lemma refused_delete_stays_deleted_witness :
  TaskStore.getTaskById sampleId
    (TaskStoreReconcile.core
       (UseWebSocketCommands.handleConflictNotification comparePositions
          "notification-1" 2600
          (snd (UseWebSocketCommands.deleteTask true "message-7" "queue-7" 2500
                  sampleLocalTask sampleClientState))
          sampleDeleteConflict
          {| TaskStoreReconcile.core :=
               fst (fst (UseWebSocketCommands.deleteTask true "message-7"
                           "queue-7" 2500 sampleLocalTask sampleClientState));
             TaskStoreReconcile.conflicts := [] |}))
  = None.
Proof.
  destruct (refused_delete_stays_deleted comparePositions true "message-7"
              "queue-7" 2500 2600 sampleLocalTask sampleClientState []
              "notification-1" sampleDeleteConflict eq_refl)
    as (_ & Hgone & _).
  - discriminate.
  - exact Hgone.
Defined.

Example test_client_keys :
  TaskStoreMove.incrementPosition (pos "a9") = pos "bA"
  /\ TaskStoreMove.incrementPosition (pos "99") = pos "99B"
  /\ TaskStoreMove.decrementPosition (pos "bA") = pos "a9"
  /\ TaskStoreMove.decrementPosition (pos "AA") = pos "AAA"
  /\ TaskStoreMove.midpoint (pos "A") (pos "z") = pos "Z"
  /\ TaskStoreMove.midpoint (pos "ab") (pos "b") = pos "abf".
Proof. repeat split. Qed.

Section ClientDeltas.

Import TaskStore TaskStoreMove UseWebSocket UseWebSocketCommands.

Variable localeCompare : Position -> Position -> Z.

(** X25: the optimistic move of an id that is not in the list changes
    nothing; otherwise it takes every task with that id out, puts one task
    back with the id, texts and version of the first of them and with the
    target column, and keeps all other tasks; into a column that holds no
    other task the key is "Mzzzzz". *)
Theorem moveTask_moves_one_task
    (taskId : string) (column : Column) (newIndex : Z) (s : TaskState) :
  (getTaskById taskId s = None ->
   moveTask localeCompare taskId column newIndex s = s)
  /\ (forall task, getTaskById taskId s = Some task ->
      exists moved,
        tasks (moveTask localeCompare taskId column newIndex s)
          ≡ₚ filter (fun t => String.eqb (task_id t) taskId = false) (tasks s)
               ++ [moved]
        /\ getTaskById taskId (moveTask localeCompare taskId column newIndex s)
           = Some moved
        /\ task_id moved = taskId
        /\ task_column moved = column
        /\ task_title moved = task_title task
        /\ task_description moved = task_description task
        /\ task_version moved = task_version task
        /\ (filter (fun t => Column_eqb (task_column t) column = true)
              (filter (fun t => String.eqb (task_id t) taskId = false) (tasks s))
            = [] -> task_position moved = pos "Mzzzzz")).
Proof.
  unfold moveTask, getTaskById. split.
  - intros ->. reflexivity.
  - intros task Hfind. rewrite Hfind.
    pose proof Hfind as Hsome. apply find_some in Hsome as [_ Hid].
    apply String.eqb_eq in Hid.
    eexists. split; [|split; [|split; [|split; [|split; [|split; [|split]]]]]].
    + simpl. unfold sortTasksByPosition. apply jsSort_Permutation.
    + simpl. apply find_by_id_unique.
      * eexists. split.
        { unfold sortTasksByPosition. rewrite jsSort_Permutation.
          apply elem_of_app. right. apply list_elem_of_singleton. reflexivity. }
        simpl. exact Hid.
      * intros x Hx Hxid. unfold sortTasksByPosition in Hx.
        rewrite jsSort_Permutation in Hx. apply elem_of_app in Hx as [Hx | Hx].
        -- apply list_elem_of_filter in Hx as [Hne _].
           rewrite Hxid, String.eqb_refl in Hne. discriminate.
        -- now apply list_elem_of_singleton in Hx.
    + exact Hid.
    + reflexivity.
    + reflexivity.
    + reflexivity.
    + reflexivity.
    + simpl. intros ->. unfold elementAt.
      now destruct (newIndex - 1 <? 0), (newIndex <? 0).
Qed.

Lemma filter_filter_same (l : list Task) (id : string) :
  filter (fun t => String.eqb (task_id t) id = false)
    (filter (fun t => String.eqb (task_id t) id = false) l)
  = filter (fun t => String.eqb (task_id t) id = false) l.
Proof.
  induction l as [|x l IH]; [reflexivity|].
  rewrite (filter_cons _ x l). case_decide as Hx; [|exact IH].
  rewrite (filter_cons _ x). case_decide; [|contradiction]. now rewrite IH.
Qed.

(** X26: delivering the same [task:update], [task:move] or [task:delete]
    twice leaves the state reached after the first delivery, whereas each
    delivery of a [task:create] adds the task once more, whether or not a
    task with that id is already in the list. *)
Theorem repeated_deltas (s : TaskState) (task : Task) (id : string) :
  (forall a b, 0 < localeCompare a b -> localeCompare b a <= 0) ->
  handleMessage localeCompare (TaskUpdate task)
    (handleMessage localeCompare (TaskUpdate task) s)
  = handleMessage localeCompare (TaskUpdate task) s
  /\ handleMessage localeCompare (TaskMove task)
       (handleMessage localeCompare (TaskMove task) s)
     = handleMessage localeCompare (TaskMove task) s
  /\ handleMessage localeCompare (TaskDelete id)
       (handleMessage localeCompare (TaskDelete id) s)
     = handleMessage localeCompare (TaskDelete id) s
  /\ length (tasks (handleMessage localeCompare (TaskCreate task) s))
     = S (length (tasks s))
  /\ length (tasks (handleMessage localeCompare (TaskCreate task)
                      (handleMessage localeCompare (TaskCreate task) s)))
     = S (S (length (tasks s))).
Proof.
  intros Hasym.
  assert (Hupdate : updateTask localeCompare task (updateTask localeCompare task s)
                    = updateTask localeCompare task s).
  { unfold updateTask, set_tasks. simpl. f_equal.
    apply (sortTasksByPosition_fixed localeCompare Hasym).
    intros x Hx. apply list_elem_of_fmap in Hx as (e & -> & _).
    destruct (String.eqb (task_id e) (task_id task)) eqn:E.
    - now rewrite String.eqb_refl.
    - now rewrite E. }
  assert (Hlen : forall s', length (tasks (addTask localeCompare task s'))
                            = S (length (tasks s'))).
  { intros s'. simpl. unfold sortTasksByPosition.
    rewrite (Permutation_length (jsSort_Permutation _ _)), length_app. simpl. lia. }
  split; [exact Hupdate|]. split; [exact Hupdate|]. split; [|split].
  - simpl. unfold removeTask, set_tasks. simpl. f_equal. apply filter_filter_same.
  - exact (Hlen s).
  - change (length (tasks (addTask localeCompare task
                             (addTask localeCompare task s)))
            = S (S (length (tasks s)))).
    now rewrite !Hlen.
Qed.

Lemma onopen_open_empties_queue (s : TaskState) :
  offlineQueue (fst (onopen (fun _ => true) s)) = [].
Proof.
  unfold onopen.
  destruct (offlineQueue (fst (replayFrom _ _ _ _ _))) as [|op rest] eqn:E;
    [reflexivity|].
  exfalso.
  destruct (replayFrom_open_remaining 0
              (offlineQueue (setConnectionStatus connected s))
              (setConnectionStatus connected s) [] op) as [Hin Hne].
  { rewrite E. now left. }
  now apply (Hne op).
Qed.

(** X27: an edit made while the socket is not open is queued behind what was
    queued before, and on reconnect with the socket open it is written
    last, as a [task:update] carrying the texts of the edit and the version
    the task had when the edit was made; the queue is empty afterwards. *)
Theorem offline_edit_is_replayed_with_its_version
    (messageId queueId : string) (now : Z)
    (task : Task) (title description : string) (s : TaskState) :
  let r := editTask localeCompare false messageId queueId now task title description s in
  snd (fst r) = []
  /\ snd (onopen (fun _ => true) (fst (fst r)))
     = (qo_payload <$> offlineQueue s) ++
         [{| msg_type := "task:update";
             msg_payload :=
               UpdatePayload (task_id task) title description (task_version task);
             msg_clientId := orUnknown (currentUserId s);
             msg_timestamp := now;
             msg_messageId := messageId |}]
  /\ offlineQueue (fst (onopen (fun _ => true) (fst (fst r)))) = [].
Proof.
  intros r. split; [reflexivity|]. split.
  - unfold onopen. rewrite replayFrom_open. unfold r, editTask, sendMessage. simpl.
    now rewrite fmap_app.
  - apply onopen_open_empties_queue.
Qed.

End ClientDeltas.

Lemma moveTask_moves_one_task_witness :
  exists moved,
    TaskStore.getTaskById sampleId
      (TaskStoreMove.moveTask comparePositions sampleId done 0 sampleClientState)
    = Some moved
    /\ task_column moved = done
    /\ task_position moved = pos "Mzzzzz".
Proof.
  destruct (moveTask_moves_one_task comparePositions sampleId done 0
              sampleClientState) as (_ & Hmove).
  destruct (Hmove sampleLocalTask eq_refl)
    as (moved & _ & Hfound & _ & Hcolumn & _ & _ & _ & Hkey).
  exists moved. split; [exact Hfound|]. split; [exact Hcolumn|].
  apply Hkey. reflexivity.
Defined.

Lemma repeated_deltas_witness :
  UseWebSocket.handleMessage comparePositions (UseWebSocket.TaskUpdate sampleAckTask)
    (UseWebSocket.handleMessage comparePositions
       (UseWebSocket.TaskUpdate sampleAckTask) sampleClientState)
  = UseWebSocket.handleMessage comparePositions
      (UseWebSocket.TaskUpdate sampleAckTask) sampleClientState.
Proof.
  destruct (repeated_deltas comparePositions sampleClientState sampleAckTask
              sampleId comparePositions_asym) as (Hupdate & _).
  exact Hupdate.
Defined.

Section ClientMove.

Import TaskStore TaskStoreMove TaskStoreReconcile UseWebSocket UseWebSocketCommands.

Variable localeCompare : Position -> Position -> Z.

Lemma filter_other_ids_fixed (l : list Task) (id : string) :
  id ∉ task_id <$> l ->
  filter (fun t => String.eqb (task_id t) id = false) l = l.
Proof.
  induction l as [|x l IH]; intros Hfresh; [reflexivity|].
  rewrite fmap_cons in Hfresh. apply not_elem_of_cons in Hfresh as [Hne Hfresh].
  rewrite (filter_cons _ x l). case_decide as Hx.
  - now rewrite IH.
  - exfalso. apply Hx. apply String.eqb_neq. congruence.
Qed.

Lemma split_off_by_id (l : list Task) (original : Task) :
  NoDup (task_id <$> l) -> original ∈ l ->
  l ≡ₚ filter (fun t => String.eqb (task_id t) (task_id original) = false) l
        ++ [original].
Proof.
  induction l as [|x l IH]; intros Hnd Hin; [inversion Hin|].
  rewrite fmap_cons in Hnd. apply NoDup_cons in Hnd as [Hfresh Hnd].
  rewrite (filter_cons _ x l). apply elem_of_cons in Hin as [<-|Hin].
  - case_decide as Hx; [rewrite String.eqb_refl in Hx; discriminate|].
    rewrite (filter_other_ids_fixed l _ Hfresh). apply Permutation_cons_append.
  - case_decide as Hx.
    + simpl. constructor. now apply IH.
    + exfalso. apply Hfresh. apply not_false_is_true in Hx.
      apply String.eqb_eq in Hx. rewrite Hx. now apply list_elem_of_fmap_2.
Qed.

Lemma tasks_moveTaskToColumn isOpen messageId queueId now task column targetIndex s
    original :
  getTaskById (task_id task) s = Some original ->
  let r := moveTaskToColumn localeCompare isOpen messageId queueId now task column
             targetIndex s in
  exists moved,
    task_id moved = task_id task
    /\ task_column moved = column
    /\ tasks (fst (fst r))
       ≡ₚ filter (fun t => String.eqb (task_id t) (task_id task) = false) (tasks s)
            ++ [moved]
    /\ pendingOperations (fst (fst r))
       = <[messageId := {| po_type := "move"; po_originalTask := Some original |}]>
           (pendingOperations s)
    /\ snd r = messageId.
Proof.
  intros Horig r.
  assert (Hid : task_id original = task_id task).
  { unfold getTaskById in Horig. apply find_some in Horig as [_ E].
    now apply String.eqb_eq in E. }
  unfold r, moveTaskToColumn, moveTask, sendMessage. rewrite Horig.
  unfold getTaskById in Horig. rewrite Horig.
  destruct isOpen; simpl.
  all: eexists; split; [|split; [|split; [|split; reflexivity]]].
  all: try (unfold sortTasksByPosition; apply jsSort_Permutation).
  all: first [exact Hid | reflexivity].
Qed.

(** X28: an optimistic move that the server answers with an error naming
    the command is rolled back: with no two local tasks sharing an id, the
    local list holds the same tasks as before the move, the moved task is
    the snapshot again (in its old column, with its old key), and the
    pending operation is gone. *)
Theorem refused_move_is_rolled_back
    (isOpen : bool) (messageId queueId : string) (now : Z)
    (task : Task) (column : Column) (targetIndex : Z) (s : TaskState)
    (original : Task) :
  getTaskById (task_id task) s = Some original ->
  NoDup (task_id <$> tasks s) ->
  messageId <> EmptyString ->
  let r := moveTaskToColumn localeCompare isOpen messageId queueId now task column
             targetIndex s in
  let final := handleError localeCompare (Some (snd r)) (fst (fst r)) in
  tasks final ≡ₚ tasks s
  /\ getTaskById (task_id task) final = Some original
  /\ pendingOperations final = delete messageId (pendingOperations s).
Proof.
  intros Horig Hnd Hmid r final.
  destruct (tasks_moveTaskToColumn isOpen messageId queueId now task column
              targetIndex s original Horig)
    as (moved & Hmoved & _ & Htasks & Hpending & Hr).
  fold r in Htasks, Hpending, Hr.
  assert (Hin : original ∈ tasks s).
  { unfold getTaskById in Horig. apply find_some in Horig as [H _].
    now apply list_elem_of_In. }
  assert (Hoid : task_id original = task_id task).
  { unfold getTaskById in Horig. apply find_some in Horig as [_ E].
    now apply String.eqb_eq in E. }
  assert (Hfinal : final = revertPendingOperation localeCompare messageId (fst (fst r))).
  { unfold final, handleError. rewrite Hr.
    destruct messageId; [congruence | reflexivity]. }
  assert (Hperm : tasks final ≡ₚ tasks s).
  { rewrite Hfinal. unfold revertPendingOperation.
    rewrite Hpending, lookup_insert_eq. simpl.
    unfold sortTasksByPosition. rewrite jsSort_Permutation.
    fold (replaceById original). rewrite Htasks, fmap_app.
    etransitivity;
      [|symmetry; apply (split_off_by_id (tasks s) original Hnd Hin)].
    rewrite Hoid. apply Permutation_app.
    - apply Permutation_refl'. apply fmap_fixed. intros x Hx.
      apply list_elem_of_filter in Hx as [Hne _]. unfold replaceById.
      rewrite Hoid. now rewrite Hne.
    - simpl. unfold replaceById. now rewrite Hmoved, Hoid, String.eqb_refl. }
  split; [exact Hperm|]. split.
  - unfold getTaskById. apply find_by_id_unique.
    + exists original. split; [now rewrite Hperm | exact Hoid].
    + intros x Hx Hxid. rewrite Hperm in Hx.
      apply (NoDup_ids_unique (tasks s)); [exact Hnd | exact Hx | exact Hin | congruence].
  - rewrite Hfinal. unfold revertPendingOperation.
    rewrite Hpending, lookup_insert_eq. simpl. apply delete_insert_eq.
Qed.

End ClientMove.

Lemma refused_move_is_rolled_back_witness :
  TaskStore.getTaskById sampleId
    (UseWebSocketCommands.handleError comparePositions
       (Some (snd (UseWebSocketCommands.moveTaskToColumn comparePositions true
                     "m-1" "q-1" 0 sampleLocalTask done 0 sampleClientState)))
       (fst (fst (UseWebSocketCommands.moveTaskToColumn comparePositions true
                    "m-1" "q-1" 0 sampleLocalTask done 0 sampleClientState))))
  = Some sampleLocalTask.
Proof.
  destruct (refused_move_is_rolled_back comparePositions true "m-1" "q-1" 0
              sampleLocalTask done 0 sampleClientState sampleLocalTask)
    as (_ & Hfound & _).
  - reflexivity.
  - apply (bool_decide_unpack _). vm_compute. exact I.
  - discriminate.
  - exact Hfound.
Defined.
